(** * jug-ocr-v1.2: the calculation engine and the OCR text extraction

    A shallow embedding of the two cores of the application, taken from
    [src/src/App.tsx] and from the second variant [src/unnamed/part_000]:

    - [calcResultByCapture] (with [numberOr]), the balance equation that
      infers the grape count and the grape probability;
    - [parseFromText], the regular-expression pipeline that reads the
      session statistics out of recognised text, together with the part
      of [handleImageFiles] / [loadPreset] that merges its result into
      the component state.

    Numbers.  A JavaScript number is modelled by [number]: an exact
    rational, the two infinities, or NaN.  The operations follow the
    IEEE 754 case analysis of ECMAScript for the special values (NaN
    propagation, [Infinity - Infinity], [0 * Infinity], [x / 0], ...);
    on finite values they are exact: binary64 rounding and overflow are
    not modelled, and there is a single zero, read as [+0].

    Strings.  A JavaScript string is the list of its UTF-16 code units. *)

From Stdlib Require Import ZArith QArith Qcanon List Bool String Ascii Lia.
Import ListNotations.

Set Implicit Arguments.

(* ================================================================== *)
(** * JavaScript numbers *)
(* ================================================================== *)

Module JsNumber.

Inductive number : Type :=
| NaN
| Inf (neg : bool)        (* [Inf false] is Infinity, [Inf true] is -Infinity *)
| Fin (q : Qc).

Definition Infinity : number := Inf false.

Definition ofZ (z : Z) : number := Fin (Q2Qc (inject_Z z)).

(** The decimal literal with digits [m] and [k] digits after the point:
    [dec 7298 3] is [7.298]. *)
Definition dec (m : Z) (k : nat) : number :=
  Fin (Q2Qc (Qmake m (Z.to_pos (10 ^ Z.of_nat k)))).

Definition zero : number := ofZ 0.

Definition qeqb (a b : Qc) : bool := Qeq_bool a b.
Definition qleb (a b : Qc) : bool := Qle_bool a b.
Definition qltb (a b : Qc) : bool := negb (Qle_bool b a).

Definition qzero : Qc := Q2Qc 0.

(** Sign bit of a finite value; the single zero is positive. *)
Definition qneg (a : Qc) : bool := qltb a qzero.

Definition isNaN (x : number) : bool :=
  match x with NaN => true | _ => false end.

Definition isFinite (x : number) : bool :=
  match x with Fin _ => true | _ => false end.

Definition neg (x : number) : number :=
  match x with
  | NaN => NaN
  | Inf s => Inf (negb s)
  | Fin q => Fin (- q)%Qc
  end.

Definition add (x y : number) : number :=
  match x, y with
  | NaN, _ | _, NaN => NaN
  | Inf s, Inf t => if Bool.eqb s t then Inf s else NaN
  | Inf s, Fin _ => Inf s
  | Fin _, Inf t => Inf t
  | Fin a, Fin b => Fin (a + b)%Qc
  end.

Definition sub (x y : number) : number :=
  match x, y with
  | NaN, _ | _, NaN => NaN
  | Inf s, Inf t => if Bool.eqb s t then NaN else Inf s
  | Inf s, Fin _ => Inf s
  | Fin _, Inf t => Inf (negb t)
  | Fin a, Fin b => Fin (a - b)%Qc
  end.

Definition mul (x y : number) : number :=
  match x, y with
  | NaN, _ | _, NaN => NaN
  | Inf s, Inf t => Inf (xorb s t)
  | Inf s, Fin b => if qeqb b qzero then NaN else Inf (xorb s (qneg b))
  | Fin a, Inf t => if qeqb a qzero then NaN else Inf (xorb (qneg a) t)
  | Fin a, Fin b => Fin (a * b)%Qc
  end.

Definition div (x y : number) : number :=
  match x, y with
  | NaN, _ | _, NaN => NaN
  | Inf _, Inf _ => NaN
  | Inf s, Fin b => Inf (xorb s (qneg b))
  | Fin _, Inf _ => zero
  | Fin a, Fin b =>
      if qeqb b qzero
      then (if qeqb a qzero then NaN else Inf (qneg a))
      else Fin (a / b)%Qc
  end.

(** [x < y], [x <= y], [x > y] of ECMAScript: false when an operand is NaN. *)
Definition ltb (x y : number) : bool :=
  match x, y with
  | NaN, _ | _, NaN => false
  | Inf s, Inf t => s && negb t
  | Inf s, Fin _ => s
  | Fin _, Inf t => negb t
  | Fin a, Fin b => qltb a b
  end.

Definition leb (x y : number) : bool :=
  match x, y with
  | NaN, _ | _, NaN => false
  | Inf s, Inf t => s || negb t
  | Inf s, Fin _ => s
  | Fin _, Inf t => negb t
  | Fin a, Fin b => qleb a b
  end.

Definition gtb (x y : number) : bool := ltb y x.

(** [Math.max(x, y)]: NaN when an argument is NaN, else the larger one. *)
Definition max (x y : number) : number :=
  match x, y with
  | NaN, _ | _, NaN => NaN
  | _, _ => if ltb x y then y else x
  end.

Definition le (x y : number) : Prop := leb x y = true.

(** The two numbers are the same value (NaN is the same as NaN here:
    this is identity, not the [===] of ECMAScript). *)
Definition same (x y : number) : bool :=
  match x, y with
  | NaN, NaN => true
  | Inf s, Inf t => Bool.eqb s t
  | Fin a, Fin b => qeqb a b
  | _, _ => false
  end.

(** The rational under a finite number. *)
Definition qv (x : number) : Qc :=
  match x with
  | Fin q => q
  | _ => qzero
  end.

End JsNumber.

Export JsNumber.

(* ================================================================== *)
(** * JavaScript strings *)
(* ================================================================== *)

Module JsString.

(** A string is the list of its UTF-16 code units. *)
Definition jsstring : Type := list Z.

(** String literals are written in UTF-8 in this file and decoded to
    code units, so that the patterns and preset names below read as in
    the source. *)
Fixpoint utf8 (bs : list Z) : jsstring :=
  match bs with
  | [] => []
  | b0 :: r0 =>
      if b0 <? 0x80 then b0 :: utf8 r0
      else if b0 <? 0xE0 then
        match r0 with
        | b1 :: r1 => ((b0 mod 0x20) * 0x40 + b1 mod 0x40) :: utf8 r1
        | _ => []
        end
      else if b0 <? 0xF0 then
        match r0 with
        | b1 :: b2 :: r2 =>
            ((b0 mod 0x10) * 0x1000 + (b1 mod 0x40) * 0x40 + b2 mod 0x40)
              :: utf8 r2
        | _ => []
        end
      else
        match r0 with
        | b1 :: b2 :: b3 :: r3 =>
            let cp := (b0 mod 0x08) * 0x40000 + (b1 mod 0x40) * 0x1000
                      + (b2 mod 0x40) * 0x40 + b3 mod 0x40 - 0x10000 in
            (0xD800 + cp / 0x400) :: (0xDC00 + cp mod 0x400) :: utf8 r3
        | _ => []
        end
  end%Z.

Definition js (s : string) : jsstring :=
  utf8 (map (fun a => Z.of_N (N_of_ascii a)) (list_ascii_of_string s)).

Definition between (lo hi c : Z) : bool := (lo <=? c)%Z && (c <=? hi)%Z.

(** A character class: a list of inclusive code-unit ranges. *)
Definition charset : Type := list (Z * Z).

Fixpoint in_set (cs : charset) (c : Z) : bool :=
  match cs with
  | [] => false
  | (lo, hi) :: cs' => between lo hi c || in_set cs' c
  end.

(** [\d] *)
Definition digit : charset := [(0x30, 0x39)]%Z.

(** [\s], which is also the white space that [parseFloat] and
    [parseInt] skip: WhiteSpace and LineTerminator of ECMAScript. *)
Definition space : charset :=
  [ (0x09, 0x0D); (0x20, 0x20); (0xA0, 0xA0); (0x1680, 0x1680);
    (0x2000, 0x200A); (0x2028, 0x2029); (0x202F, 0x202F);
    (0x205F, 0x205F); (0x3000, 0x3000); (0xFEFF, 0xFEFF) ]%Z.

Definition is_digit (c : Z) : bool := in_set digit c.
Definition is_space (c : Z) : bool := in_set space c.

(** [String.prototype.toLowerCase], one code unit at a time.  The simple
    case mappings of the Basic Latin, Latin-1, Cyrillic, Roman numeral
    and full-width Latin blocks are modelled; every other code unit
    (kana, kanji, digits, punctuation) is its own lower case. *)
Definition lower_unit (c : Z) : Z :=
  (if between 0x41 0x5A c then c + 32
   else if between 0xC0 0xDE c && negb (c =? 0xD7) then c + 32
   else if between 0x400 0x40F c then c + 80
   else if between 0x410 0x42F c then c + 32
   else if between 0x2160 0x216F c then c + 16
   else if between 0xFF21 0xFF3A c then c + 32
   else c)%Z.

Definition toLowerCase (s : jsstring) : jsstring := map lower_unit s.

Fixpoint dropWhile (p : Z -> bool) (s : jsstring) : jsstring :=
  match s with
  | c :: s' => if p c then dropWhile p s' else s
  | [] => []
  end.

Fixpoint takeWhile (p : Z -> bool) (s : jsstring) : jsstring :=
  match s with
  | c :: s' => if p c then c :: takeWhile p s' else []
  | [] => []
  end.

Fixpoint startsWith (p s : jsstring) : bool :=
  match p, s with
  | [], _ => true
  | a :: p', b :: s' => (a =? b)%Z && startsWith p' s'
  | _ :: _, [] => false
  end.

(** [s.includes(p)] *)
Fixpoint includes (s p : jsstring) : bool :=
  startsWith p s ||
  match s with
  | [] => false
  | _ :: s' => includes s' p
  end.

(** The value of a run of decimal digits. *)
Definition digits_value (ds : jsstring) : Z :=
  fold_left (fun acc d => acc * 10 + (d - 0x30))%Z ds 0%Z.

(** A leading sign: [(true, rest)] after a minus. *)
Definition split_sign (s : jsstring) : bool * jsstring :=
  match s with
  | 0x2B%Z :: r => (false, r)
  | 0x2D%Z :: r => (true, r)
  | _ => (false, s)
  end.

(** [parseInt(s, 10)] *)
Definition parseInt (s : jsstring) : number :=
  let (sg, u) := split_sign (dropWhile is_space s) in
  let ds := takeWhile is_digit u in
  match ds with
  | [] => NaN
  | _ => ofZ (if sg then - digits_value ds else digits_value ds)
  end.

(** The exponent part [e[+-]ddd] of a decimal literal, when present. *)
Definition exponent_part (s : jsstring) : Z :=
  match s with
  | c :: r =>
      if (c =? 0x65)%Z || (c =? 0x45)%Z then
        let (sg, u) := split_sign r in
        match takeWhile is_digit u with
        | [] => 0%Z
        | ds => if sg then (- digits_value ds)%Z else digits_value ds
        end
      else 0%Z
  | [] => 0%Z
  end.

(** [m * 10^e] as an exact rational. *)
Definition scale10 (m e : Z) : Qc :=
  if (0 <=? e)%Z then Q2Qc (inject_Z (m * 10 ^ e))
  else Q2Qc (Qmake m (Z.to_pos (10 ^ (- e)))).

(** [parseFloat(s)]: leading white space is skipped and the longest
    prefix that is a StrDecimalLiteral is read; NaN when there is none.
    The value is the exact one: a literal beyond the binary64 range
    stays finite. *)
Definition parseFloat (s : jsstring) : number :=
  let (sg, u) := split_sign (dropWhile is_space s) in
  if startsWith (js "Infinity") u then Inf sg
  else
    let ip := takeWhile is_digit u in
    let r1 := dropWhile is_digit u in
    let fp := match r1 with
              | 0x2E%Z :: r => takeWhile is_digit r
              | _ => []
              end in
    let r2 := match r1 with
              | 0x2E%Z :: r => dropWhile is_digit r
              | _ => r1
              end in
    match ip ++ fp with
    | [] => NaN
    | ds =>
        let m := digits_value ds in
        let e := (exponent_part r2 - Z.of_nat (List.length fp))%Z in
        Fin (scale10 (if sg then - m else m) e)
    end.

End JsString.

Export JsString.

(* ================================================================== *)
(** * Regular expressions *)
(* ================================================================== *)

Module Regex.

(** The fragment of ECMAScript patterns that the application uses:
    character classes, sequence, ordered alternation, greedy bounded and
    unbounded quantifiers, numbered capturing groups and negative
    lookahead. *)
Inductive regex : Type :=
| Eps
| Cls (cs : charset)
| Seq (r1 r2 : regex)
| Alt (r1 r2 : regex)
| Rep (r : regex) (lo : nat) (hi : option nat)
| Grp (n : nat) (r : regex)
| NLook (r : regex).

(** Code unit of a one-character literal, and the class of the
    characters of a literal. *)
Definition ch (s : string) : Z := hd 0%Z (js s).
Definition chars (s : string) : charset := map (fun c => (c, c)) (js s).

Definition Chr (s : string) : regex := Cls (chars s).

Fixpoint LitU (s : jsstring) : regex :=
  match s with
  | [] => Eps
  | [c] => Cls [(c, c)]
  | c :: s' => Seq (Cls [(c, c)]) (LitU s')
  end.

Definition Lit (s : string) : regex := LitU (js s).

Fixpoint Seqs (rs : list regex) : regex :=
  match rs with
  | [] => Eps
  | [r] => r
  | r :: rs' => Seq r (Seqs rs')
  end.

Fixpoint Alts (rs : list regex) : regex :=
  match rs with
  | [] => Eps
  | [r] => r
  | r :: rs' => Alt r (Alts rs')
  end.

Definition Opt (r : regex) : regex := Rep r 0 (Some 1%nat).
Definition Star (r : regex) : regex := Rep r 0 None.
Definition Plus (r : regex) : regex := Rep r 1 None.

(** The groups captured so far, most recent first. *)
Definition captures : Type := list (nat * jsstring).

(** [m[n]] of a match: [None] is [undefined]. *)
Fixpoint group (n : nat) (c : captures) : option jsstring :=
  match c with
  | [] => None
  | (i, s) :: c' => if Nat.eqb i n then Some s else group n c'
  end.

(** What was consumed between the input [s] and its suffix [s']. *)
Definition consumed (s s' : jsstring) : jsstring :=
  firstn (List.length s - List.length s') s.

Definition below (cnt : nat) (hi : option nat) : bool :=
  match hi with
  | None => true
  | Some h => Nat.ltb cnt h
  end.

Definition answer : Type := option (jsstring * captures).

(** The loop of a quantifier [r{lo,hi}] over the matcher [m] of its
    body: [cnt] iterations are done.  It is greedy: one more iteration
    is tried first, and the continuation is the fallback.  Once the
    lower bound is reached an iteration that consumes nothing is
    rejected, so [fuel], the length of the input plus [lo], is never
    what stops the loop. *)
Fixpoint rep_loop
         (m : jsstring -> captures -> (jsstring -> captures -> answer) -> answer)
         (lo : nat) (hi : option nat) (k : jsstring -> captures -> answer)
         (fuel cnt : nat) (s : jsstring) (c : captures) {struct fuel}
  : answer :=
  let stop := if Nat.leb lo cnt then k s c else None in
  match fuel with
  | O => stop
  | S fuel' =>
      if below cnt hi then
        match m s c (fun s1 c1 =>
                       if Nat.ltb (List.length s1) (List.length s)
                          || Nat.ltb cnt lo
                       then rep_loop m lo hi k fuel' (S cnt) s1 c1
                       else None) with
        | Some a => Some a
        | None => stop
        end
      else stop
  end.

(** Backtracking matcher in continuation-passing style, as the
    ECMAScript matcher is specified: [rmatch r s c k] matches [r] at the
    head of [s] and hands the rest of the input and the captures to [k];
    when [k] fails the next alternative is tried. *)
Fixpoint rmatch (r : regex) (s : jsstring) (c : captures)
         (k : jsstring -> captures -> answer) {struct r} : answer :=
  match r with
  | Eps => k s c
  | Cls cs =>
      match s with
      | x :: s' => if in_set cs x then k s' c else None
      | [] => None
      end
  | Seq r1 r2 => rmatch r1 s c (fun s1 c1 => rmatch r2 s1 c1 k)
  | Alt r1 r2 =>
      match rmatch r1 s c k with
      | Some a => Some a
      | None => rmatch r2 s c k
      end
  | Rep r1 lo hi =>
      rep_loop (rmatch r1) lo hi k (List.length s + lo) 0 s c
  | Grp n r1 =>
      rmatch r1 s c (fun s1 c1 => k s1 ((n, consumed s s1) :: c1))
  | NLook r1 =>
      match rmatch r1 s c (fun s1 c1 => Some (s1, c1)) with
      | Some _ => None
      | None => k s c
      end
  end.

(** A match of [r] at the head of [s]: the rest of the input and the
    captures. *)
Definition match_at (r : regex) (s : jsstring) : answer :=
  rmatch r s [] (fun s1 c1 => Some (s1, c1)).

(** [s.match(r)] for a pattern without the global flag: the leftmost
    match, [None] for [null]. *)
Fixpoint exec (r : regex) (s : jsstring) : option captures :=
  match match_at r s with
  | Some (_, c) => Some c
  | None =>
      match s with
      | [] => None
      | _ :: s' => exec r s'
      end
  end.

(** [s.replace(r, f)] for a pattern with the global flag: every match,
    left to right, is replaced by [f] of the matched text; [skip] counts
    the code units of the current match that are still to be passed. *)
Fixpoint replace_from (r : regex) (f : jsstring -> jsstring)
         (skip : nat) (s : jsstring) : jsstring :=
  match s with
  | [] => []
  | x :: s' =>
      match skip with
      | S n => replace_from r f n s'
      | O =>
          match match_at r s with
          | Some (rest, _) =>
              match consumed s rest with
              | [] => x :: replace_from r f 0 s'
              | m => f m ++ replace_from r f (List.length m - 1) s'
              end
          | None => x :: replace_from r f 0 s'
          end
      end
  end.

Definition replaceAll (r : regex) (f : jsstring -> jsstring)
           (s : jsstring) : jsstring :=
  replace_from r f 0 s.

(** ** What a match is

    [matches r s c s' c']: the pattern [r] can consume the input [s]
    down to its suffix [s'], turning the captures [c] into [c'].  A
    negative lookahead holds where the matcher finds no match of its
    body. *)
Fixpoint iter (step : jsstring -> captures -> jsstring -> captures -> Prop)
         (n : nat) (s : jsstring) (c : captures)
         (s' : jsstring) (c' : captures) : Prop :=
  match n with
  | O => s' = s /\ c' = c
  | S n' => exists s1 c1, step s c s1 c1 /\ iter step n' s1 c1 s' c'
  end.

Definition within (n : nat) (hi : option nat) : Prop :=
  match hi with
  | None => True
  | Some h => (n <= h)%nat
  end.

Fixpoint matches (r : regex) (s : jsstring) (c : captures)
         (s' : jsstring) (c' : captures) : Prop :=
  match r with
  | Eps => s' = s /\ c' = c
  | Cls cs => exists x, s = x :: s' /\ in_set cs x = true /\ c' = c
  | Seq r1 r2 =>
      exists s1 c1, matches r1 s c s1 c1 /\ matches r2 s1 c1 s' c'
  | Alt r1 r2 => matches r1 s c s' c' \/ matches r2 s c s' c'
  | Rep r1 lo hi =>
      exists n, (lo <= n)%nat /\ within n hi
                /\ iter (matches r1) n s c s' c'
  | Grp n r1 =>
      exists c1, matches r1 s c s' c1 /\ c' = (n, consumed s s') :: c1
  | NLook r1 =>
      s' = s /\ c' = c
      /\ rmatch r1 s c (fun s1 c1 => Some (s1, c1)) = None
  end.

End Regex.

Export Regex.

(* ================================================================== *)
(** * Values and records shared by the two variants *)
(* ================================================================== *)

Declare Scope js_scope.
Delimit Scope js_scope with js.
Bind Scope js_scope with number.
Infix "+" := add : js_scope.
Infix "-" := sub : js_scope.
Infix "*" := mul : js_scope.
Infix "/" := div : js_scope.

(** Method chains [x.f().g()] are written [x |> f |> g]. *)
Notation "x |> f" := (f x) (at level 68, left associativity, only parsing).

(** The contents of an input field: [string | number], or nothing. *)
Inductive value : Type :=
| VUndefined
| VNum (n : number)
| VStr (s : jsstring).

(** One entry of [PRESETS]. *)
Module Preset.
Record t : Type := mk
  { replay : number; cherry : number; bell : number; piero : number;
    bigAvg : number; regAvg : number;
    cherryPay : number; bellPay : number; pieroPay : number }.
End Preset.

(** The [capture] object of a strategy. *)
Module Capture.
Record t : Type := mk { cherry : number; bell : number; piero : number }.
End Capture.

Module Strategy.
Record t : Type := mk { key : jsstring; label : jsstring; capture : Capture.t }.
End Strategy.

(** What [calcResultByCapture] returns. *)
Module Result.
Record t : Type := mk { grapesCount : number; grapeProb : number }.
End Result.

(** What [parseFromText] returns when it is not [null]; [None] in a
    field is [undefined]. *)
Module Parsed.
Record t : Type := mk
  { modelKey : option jsstring;
    G : option number; big : option number;
    reg : option number; diff : option number }.
End Parsed.

(** The [useState] cells of the component [App] that the two cores read
    and write.  The nine premises are declared [number]; the edit
    fields store digit strings in them, which the arithmetic reads as
    numbers, so a premise is the number it is read as. *)
Module State.
Record t : Type := mk
  { modelKey : jsstring;
    G : value; big : value; reg : value; diff : value;
    replay : number; cherry : number; bell : number; piero : number;
    bigAvg : number; regAvg : number;
    cherryPay : number; bellPay : number; pieroPay : number }.

Definition setModelKey (k : jsstring) (st : t) : t :=
  mk k (G st) (big st) (reg st) (diff st) (replay st) (cherry st) (bell st)
     (piero st) (bigAvg st) (regAvg st) (cherryPay st) (bellPay st)
     (pieroPay st).
Definition setG (v : value) (st : t) : t :=
  mk (modelKey st) v (big st) (reg st) (diff st) (replay st) (cherry st)
     (bell st) (piero st) (bigAvg st) (regAvg st) (cherryPay st) (bellPay st)
     (pieroPay st).
Definition setBig (v : value) (st : t) : t :=
  mk (modelKey st) (G st) v (reg st) (diff st) (replay st) (cherry st)
     (bell st) (piero st) (bigAvg st) (regAvg st) (cherryPay st) (bellPay st)
     (pieroPay st).
Definition setReg (v : value) (st : t) : t :=
  mk (modelKey st) (G st) (big st) v (diff st) (replay st) (cherry st)
     (bell st) (piero st) (bigAvg st) (regAvg st) (cherryPay st) (bellPay st)
     (pieroPay st).
Definition setDiff (v : value) (st : t) : t :=
  mk (modelKey st) (G st) (big st) (reg st) v (replay st) (cherry st)
     (bell st) (piero st) (bigAvg st) (regAvg st) (cherryPay st) (bellPay st)
     (pieroPay st).
(** The nine setters of the editable premises, called together by
    [loadPreset]. *)
Definition setPremises (np : Preset.t) (st : t) : t :=
  mk (modelKey st) (G st) (big st) (reg st) (diff st)
     (Preset.replay np) (Preset.cherry np) (Preset.bell np) (Preset.piero np)
     (Preset.bigAvg np) (Preset.regAvg np)
     (Preset.cherryPay np) (Preset.bellPay np) (Preset.pieroPay np).
End State.

(** [PRESETS[key]] on an object literal: the entry under [key]. *)
Fixpoint lookup (A : Type) (key : jsstring) (tbl : list (jsstring * A))
  : option A :=
  match tbl with
  | [] => None
  | (k, v) :: tbl' => if list_eq_dec Z.eq_dec k key then Some v else lookup key tbl'
  end.

(** [a || b] on two optional strings: the empty string and [undefined]
    are falsy. *)
Definition or_else (a b : option jsstring) : option jsstring :=
  match a with
  | Some (_ :: _) => a
  | _ => b
  end.

(** [parseInt(x, 10)] on a match group; [undefined] reads as the string
    "undefined", which has no digits. *)
Definition parseIntGroup (x : option jsstring) : number :=
  match x with
  | Some s => parseInt s
  | None => NaN
  end.

(** [String.fromCharCode(n)] and [d.charCodeAt(0)]. *)
Definition fromCharCode (n : Z) : jsstring := [(n mod 0x10000)%Z].
Definition charCodeAt0 (d : jsstring) : Z := hd 0%Z d.

(** The loop [for (const r of patterns) { const m = text.match(r);
    if (m) { ...; break; } }]: the match of the first pattern that
    matches. *)
Fixpoint firstMatch (patterns : list regex) (text : jsstring)
  : option captures :=
  match patterns with
  | [] => None
  | r :: rest =>
      match exec r text with
      | Some m => Some m
      | None => firstMatch rest text
      end
  end.

(* ================================================================== *)
(** * More of JavaScript, and the history rows *)
(* ================================================================== *)

Module JsMore.

(** A code unit is a 16-bit number. *)
Definition is_unit (c : Z) : bool := between 0 0xFFFF c.
Definition well_formed (s : jsstring) : bool := forallb is_unit s.

(** The negated classes [[^\d]] and [[^\d+-]], over the code units. *)
Definition notDigit : charset := [(0, 0x2F); (0x3A, 0xFFFF)]%Z.
Definition notDigitOrSign : charset :=
  [(0, 0x2A); (0x2C, 0x2C); (0x2E, 0x2F); (0x3A, 0xFFFF)]%Z.

(** A sign character, as [[+-]] has it. *)
Definition is_sign (x : Z) : bool := in_set (chars "+-") x.

(** The text holds a numeral and [g] is that numeral: an optional sign
    (only where [signs] allows one) and between [lo] and [hi] digits. *)
Definition numeral (lo hi : nat) (signs : bool) (text : jsstring)
           (g : option jsstring) : Prop :=
  exists a sg ds b,
    text = a ++ sg ++ ds ++ b
    /\ Forall (fun x => is_digit x = true) ds
    /\ (lo <= List.length ds <= hi)%nat
    /\ (sg = [] \/ (signs = true /\ exists x, is_sign x = true /\ sg = [x]))
    /\ g = Some (sg ++ ds).

(** [s.slice(0, n)] *)
Definition slice0 (n : nat) (s : jsstring) : jsstring := firstn n s.

(** [obj[key]] for [obj = Object.fromEntries(entries)]: the last entry
    under the key, [None] for [undefined]. *)
Definition entryGet (A : Type) (key : jsstring) (entries : list (jsstring * A))
  : option A :=
  lookup key (rev entries).

End JsMore.

Export JsMore.

(** [HistoryRow] *)
Module HistoryRow.
Record t : Type := mk
  { modelKey : jsstring;
    probRandom : jsstring; probC90 : jsstring;
    probC100 : jsstring; probFull : jsstring }.
End HistoryRow.

(* ================================================================== *)
(** * The variant [src/src/App.tsx] *)
(* ================================================================== *)

Module AppTsx.

Definition PRESETS : list (jsstring * Preset.t) :=
  [ (js "マイジャグラーV",
     Preset.mk (dec 7298 3) (ofZ 36) (ofZ 1024) (ofZ 1024)
               (dec 23925 2) (dec 9525 2) (ofZ 2) (ofZ 14) (ofZ 10));
    (js "SアイムジャグラーEX",
     Preset.mk (dec 7298 3) (dec 3562 2) (dec 109227 2) (dec 109227 2)
               (dec 25125 2) (dec 9525 2) (ofZ 2) (ofZ 14) (ofZ 10));
    (js "ハッピージャグラーVⅢ",
     Preset.mk (dec 7298 3) (dec 5655 2) (dec 65536 2) (dec 65536 2)
               (dec 2397 1) (dec 957 1) (ofZ 4) (ofZ 14) (ofZ 10));
    (js "ファンキージャグラー2",
     Preset.mk (dec 7298 3) (dec 3562 2) (dec 109227 2) (dec 109227 2)
               (dec 23925 2) (dec 9525 2) (ofZ 2) (ofZ 14) (ofZ 10));
    (js "ゴーゴージャグラー3",
     Preset.mk (dec 7298 3) (dec 322 1) (dec 109227 2) (dec 109227 2)
               (dec 23925 2) (dec 9525 2) (ofZ 2) (ofZ 14) (ofZ 10));
    (js "ミスタージャグラー",
     Preset.mk (dec 7298 3) (dec 3724 2) (ofZ 420) (ofZ 655)
               (dec 23925 2) (dec 9525 2) (ofZ 4) (ofZ 14) (ofZ 10)) ].

Definition STRATEGIES : list Strategy.t :=
  [ Strategy.mk (js "random") (js "適当打ち")
      (Capture.mk (dec 667 3) (dec 1 1) (dec 5 2));
    Strategy.mk (js "cherry90") (js "チェリー狙い(90%)")
      (Capture.mk (dec 90 2) (dec 5 2) (dec 1 2));
    Strategy.mk (js "cherry100") (js "チェリー狙い(100%)")
      (Capture.mk (dec 100 2) (ofZ 0) (ofZ 0));
    Strategy.mk (js "full") (js "完全攻略")
      (Capture.mk (dec 100 2) (dec 100 2) (dec 100 2)) ].

(** The local [n] of [numberOr]: a number is taken as it is; anything
    else goes through [parseFloat(String(val ?? "").replace(/,/g, ""))]. *)
Definition numberOr_n (val : value) : number :=
  match val with
  | VNum x => x
  | VStr s => s |> replaceAll (Chr ",") (fun _ => []) |> parseFloat
  | VUndefined => [] |> replaceAll (Chr ",") (fun _ => []) |> parseFloat
  end.

(** [numberOr(val, fallback)] *)
Definition numberOr (val : value) (fallback : number) : number :=
  let n := numberOr_n val in
  if isFinite n then n else fallback.

(** [loadPreset(key)]; [None] is the TypeError of reading [np.replay]
    when [PRESETS[key]] is undefined. *)
Definition loadPreset (key : jsstring) (st : State.t) : option State.t :=
  let st := State.setModelKey key st in
  match lookup key PRESETS with
  | Some np =>
      let st := State.setPremises np st in
      Some st
  | None => None
  end.

(** [calcResultByCapture(capture)], reading the state cells. *)
Definition calcResultByCapture (st : State.t) (capture : Capture.t)
  : Result.t :=
  let g := numberOr (State.G st) zero in
  let B := numberOr (State.big st) zero in
  let R := numberOr (State.reg st) zero in
  let D := numberOr (State.diff st) zero in
  let coinIn := (ofZ 3 * g - ofZ 3 * (g / State.replay st))%js in
  let outBigReg := (B * State.bigAvg st + R * State.regAvg st)%js in
  let outOthers :=
    ((g / State.cherry st) * State.cherryPay st * Capture.cherry capture +
     (g / State.bell st) * State.bellPay st * Capture.bell capture +
     (g / State.piero st) * State.pieroPay st * Capture.piero capture)%js in
  let outKnown := (outBigReg + outOthers)%js in
  let grapesCountRaw := ((D + coinIn - outKnown) / ofZ 8)%js in
  let grapesCount := max zero grapesCountRaw in
  let grapeProb :=
    if gtb grapesCount zero then (g / grapesCount)%js else Infinity in
  Result.mk grapesCount grapeProb.

(** [resultsByStrategy]: one result per entry of [STRATEGIES]. *)
Definition resultsByStrategy (st : State.t) : list (jsstring * Result.t) :=
  map (fun s => (Strategy.key s, calcResultByCapture st (Strategy.capture s)))
      STRATEGIES.

(** The first statement of [parseFromText]: the chain of [replace]
    calls and [toLowerCase]. *)
Definition normalize (raw : jsstring) : jsstring :=
  raw
  |> replaceAll (Cls [(0xFF10, 0xFF19)%Z])
       (fun d => fromCharCode (charCodeAt0 d - 0xFF10 + 0x30))
  |> replaceAll (Plus (Cls [(0x20, 0x20); (0x2C, 0x2C); (0x09, 0x09)]%Z))
       (fun _ => js " ")
  |> replaceAll (Chr ",") (fun _ => [])
  |> replaceAll (Chr "Ｇ") (fun _ => js "G")
  |> replaceAll (Chr "－") (fun _ => js "-")
  |> replaceAll (Chr "＋") (fun _ => js "+")
  |> toLowerCase.

Definition stripSpaces (s : jsstring) : jsstring :=
  replaceAll (Cls space) (fun _ => []) s.

(** The loop over [Object.keys(PRESETS)]: the first key contained in
    the text, white space removed on both sides. *)
Fixpoint findModel (keys : list jsstring) (text : jsstring)
  : option jsstring :=
  match keys with
  | [] => None
  | key :: rest =>
      let keyNorm := key |> toLowerCase |> stripSpaces in
      if includes (stripSpaces text) keyNorm then Some key
      else findModel rest text
  end.

Definition gPatterns : list regex :=
  [ Seqs [ Grp 1 (Alts [ Seq (Opt (Chr "総")) (Lit "回転数");
                         Lit "g数"; Lit "回転数" ]);
           Star (Cls space); Opt (Cls (chars ":：")); Star (Cls space);
           Grp 2 (Rep (Cls digit) 2 (Some 6%nat));
           Star (Cls space); Opt (Chr "g") ];
    Seqs [ Grp 1 (Rep (Cls digit) 3 (Some 6%nat));
           Star (Cls space); Chr "g"; NLook (Chr "/") ] ].

Definition bbPatterns : list regex :=
  [ Seqs [ Grp 1 (Alts [Lit "bb"; Lit "big"; Lit "ビッグ"]);
           Star (Cls space); Opt (Cls (chars ":：")); Star (Cls space);
           Grp 2 (Rep (Cls digit) 1 (Some 3%nat)) ] ].

Definition rbPatterns : list regex :=
  [ Seqs [ Grp 1 (Alts [Lit "rb"; Lit "reg"; Lit "レギュラー"]);
           Star (Cls space); Opt (Cls (chars ":：")); Star (Cls space);
           Grp 2 (Rep (Cls digit) 1 (Some 3%nat)) ] ].

Definition diffPatterns : list regex :=
  [ Seqs [ Grp 1 (Alts [ Seq (Lit "差枚") (Opt (Grp 2 (Chr "数")));
                         Lit "差玉"; Lit "差枚数" ]);
           Star (Cls space); Opt (Cls (chars ":：")); Star (Cls space);
           Grp 3 (Seq (Opt (Cls (chars "+-")))
                      (Rep (Cls digit) 1 (Some 6%nat))) ];
    Seqs [ Grp 1 (Seq (Cls (chars "+-")) (Rep (Cls digit) 1 (Some 6%nat)));
           Star (Cls space); Opt (Grp 2 (Chr "枚")) ] ].

(** The four field loops of [parseFromText], on the normalised text. *)
Definition extractG (text : jsstring) : option number :=
  option_map (fun m => parseIntGroup (or_else (group 2 m) (group 1 m)))
             (firstMatch gPatterns text).
Definition extractBig (text : jsstring) : option number :=
  option_map (fun m => parseIntGroup (group 2 m)) (firstMatch bbPatterns text).
Definition extractReg (text : jsstring) : option number :=
  option_map (fun m => parseIntGroup (group 2 m)) (firstMatch rbPatterns text).
Definition extractDiff (text : jsstring) : option number :=
  option_map (fun m => parseIntGroup (or_else (group 3 m) (group 1 m)))
             (firstMatch diffPatterns text).

(** [parseFromText(raw)]; [None] is [null]. *)
Definition parseFromText (raw : jsstring) : option Parsed.t :=
  match raw with
  | [] => None
  | _ =>
      let text := normalize raw in
      let modelKey := findModel (map fst PRESETS) text in
      let G := extractG text in
      let big := extractBig text in
      let reg := extractReg text in
      let diff := extractDiff text in
      match G, big, reg, diff with
      | None, None, None, None => None
      | _, _, _, _ => Some (Parsed.mk modelKey G big reg diff)
      end
  end.

(** The part of [handleImageFiles] that follows the recognition: the
    result of [parseFromText] is written into the state cells. *)
Definition applyParsed (parsed : option Parsed.t) (st : State.t) : State.t :=
  match parsed with
  | Some p =>
      let st :=
        match Parsed.modelKey p with
        | Some ((_ :: _) as key) =>
            match lookup key PRESETS with
            | Some _ =>
                match loadPreset key st with
                | Some st' => st'
                | None => st
                end
            | None => st
            end
        | _ => st
        end in
      let st := match Parsed.G p with
                | Some n => State.setG (VNum n) st | None => st end in
      let st := match Parsed.big p with
                | Some n => State.setBig (VNum n) st | None => st end in
      let st := match Parsed.reg p with
                | Some n => State.setReg (VNum n) st | None => st end in
      let st := match Parsed.diff p with
                | Some n => State.setDiff (VNum n) st | None => st end in
      st
  | None => st
  end.

(** [String.prototype.trim] *)
Definition trim (s : jsstring) : jsstring :=
  rev (dropWhile is_space (rev (dropWhile is_space s))).

(** [handleImageFiles], from the text [data.text] that the recognition
    returned on: it is trimmed, parsed and merged.  The recognition
    itself and the log are outside the model. *)
Definition handleImageFiles (dataText : jsstring) (st : State.t) : State.t :=
  applyParsed (parseFromText (trim dataText)) st.

(** [BRField]: what [onChange] stores for the text of the input. *)
Module BRField.
Definition onChange (targetValue : jsstring) : jsstring :=
  let raw := targetValue |> replaceAll (Cls notDigit) (fun _ => []) in
  raw |> slice0 4.
End BRField.

(** [NumberField]: what [onChange] stores. *)
Module NumberField.
Definition onChange (targetValue : jsstring) : jsstring :=
  let raw := targetValue |> replaceAll (Cls notDigit) (fun _ => []) in
  let clipped := raw |> slice0 5 in
  clipped.
End NumberField.

(** [DiffField]: what [onChange] stores: the leading sign and six
    digits. *)
Module DiffField.
Definition onChange (targetValue : jsstring) : jsstring :=
  let raw := targetValue |> replaceAll (Cls notDigitOrSign) (fun _ => []) in
  let sign := if startsWith (js "-") raw then js "-"
              else if startsWith (js "+") raw then js "+" else [] in
  let digits := raw |> replaceAll (Cls (chars "+-")) (fun _ => [])
                    |> slice0 6 in
  sign ++ digits.
End DiffField.

(** [formatProb(x)]; [toFixed] is [Number.prototype.toFixed], which the
    model takes as given. *)
Definition formatProb (toFixed : number -> nat -> jsstring) (x : number)
  : jsstring :=
  if negb (isFinite x) || leb x zero then js "-"
  else js "1/" ++ toFixed x 2%nat.

End AppTsx.

(* ================================================================== *)
(** * The variant [src/unnamed/part_000] *)
(* ================================================================== *)

Module Part000.

Definition PRESETS : list (jsstring * Preset.t) :=
  [ (js "マイジャグラーV",
     Preset.mk (dec 7298 3) (ofZ 36) (ofZ 1024) (ofZ 1024)
               (dec 23925 2) (dec 9525 2) (ofZ 2) (ofZ 14) (ofZ 10));
    (js "SアイムジャグラーEX",
     Preset.mk (dec 7298 3) (dec 3562 2) (dec 109227 2) (dec 109227 2)
               (dec 25125 2) (dec 9525 2) (ofZ 2) (ofZ 14) (ofZ 10));
    (js "ハッピージャグラーVⅢ",
     Preset.mk (dec 7298 3) (dec 5655 2) (dec 65536 2) (dec 65536 2)
               (dec 2397 1) (dec 957 1) (ofZ 4) (ofZ 14) (ofZ 10));
    (js "ファンキージャグラー2",
     Preset.mk (dec 7298 3) (dec 3562 2) (dec 109227 2) (dec 109227 2)
               (dec 23925 2) (dec 9525 2) (ofZ 2) (ofZ 14) (ofZ 10));
    (js "ゴーゴージャグラー3",
     Preset.mk (dec 7298 3) (dec 322 1) (dec 109227 2) (dec 109227 2)
               (dec 23925 2) (dec 9525 2) (ofZ 2) (ofZ 14) (ofZ 10));
    (js "ミスタージャグラー",
     Preset.mk (dec 7298 3) (dec 3724 2) (ofZ 420) (ofZ 655)
               (dec 23925 2) (dec 9525 2) (ofZ 4) (ofZ 14) (ofZ 10)) ].

Definition STRATEGIES : list Strategy.t :=
  [ Strategy.mk (js "random") (js "適当打ち")
      (Capture.mk (dec 667 3) (dec 1 1) (dec 5 2));
    Strategy.mk (js "cherry90") (js "チェリー狙い(90%)")
      (Capture.mk (dec 90 2) (dec 5 2) (dec 1 2));
    Strategy.mk (js "cherry100") (js "チェリー狙い(100%)")
      (Capture.mk (dec 100 2) (dec 0 2) (dec 0 2));
    Strategy.mk (js "full") (js "完全攻略")
      (Capture.mk (dec 100 2) (dec 100 2) (dec 100 2)) ].

(** The local [n] of [numberOr]: a number is taken as it is; anything
    else goes through [parseFloat(String(val ?? "").replace(/,/g, ""))]. *)
Definition numberOr_n (val : value) : number :=
  match val with
  | VNum x => x
  | VStr s => s |> replaceAll (Chr ",") (fun _ => []) |> parseFloat
  | VUndefined => [] |> replaceAll (Chr ",") (fun _ => []) |> parseFloat
  end.

(** [numberOr(val, fallback)] *)
Definition numberOr (val : value) (fallback : number) : number :=
  let n := numberOr_n val in
  if isFinite n then n else fallback.

(** [loadPreset(key)]; [None] is the TypeError of reading [np.replay]
    when [PRESETS[key]] is undefined. *)
Definition loadPreset (key : jsstring) (st : State.t) : option State.t :=
  let st := State.setModelKey key st in
  match lookup key PRESETS with
  | Some np =>
      let st := State.setPremises np st in
      (* the inputs are cleared *)
      let st := State.setG (VStr []) st in
      let st := State.setBig (VStr []) st in
      let st := State.setReg (VStr []) st in
      let st := State.setDiff (VStr []) st in
      Some st
  | None => None
  end.

(** [calcResultByCapture(capture)], reading the state cells. *)
Definition calcResultByCapture (st : State.t) (capture : Capture.t)
  : Result.t :=
  let g := numberOr (State.G st) zero in
  let B := numberOr (State.big st) zero in
  let R := numberOr (State.reg st) zero in
  let D := numberOr (State.diff st) zero in
  let coinIn := (ofZ 3 * g - ofZ 3 * (g / State.replay st))%js in
  let outBigReg := (B * State.bigAvg st + R * State.regAvg st)%js in
  let outOthers :=
    ((g / State.cherry st) * State.cherryPay st * Capture.cherry capture +
     (g / State.bell st) * State.bellPay st * Capture.bell capture +
     (g / State.piero st) * State.pieroPay st * Capture.piero capture)%js in
  let outKnown := (outBigReg + outOthers)%js in
  let grapesCountRaw := ((D + coinIn - outKnown) / ofZ 8)%js in
  let grapesCount := max zero grapesCountRaw in
  let grapeProb :=
    if gtb grapesCount zero then (g / grapesCount)%js else Infinity in
  Result.mk grapesCount grapeProb.

(** [resultsByStrategy]: one result per entry of [STRATEGIES]. *)
Definition resultsByStrategy (st : State.t) : list (jsstring * Result.t) :=
  map (fun s => (Strategy.key s, calcResultByCapture st (Strategy.capture s)))
      STRATEGIES.

(** The first statement of [parseFromText]: the chain of [replace]
    calls and [toLowerCase]. *)
Definition normalize (raw : jsstring) : jsstring :=
  raw
  |> replaceAll (Cls [(0xFF10, 0xFF19)%Z])
       (fun d => fromCharCode (charCodeAt0 d - 0xFF10 + 0x30))
  |> replaceAll (Plus (Cls [(0x20, 0x20); (0x2C, 0x2C); (0x09, 0x09)]%Z))
       (fun _ => js " ")
  |> replaceAll (Chr ",") (fun _ => [])
  |> replaceAll (Chr "Ｇ") (fun _ => js "G")
  |> replaceAll (Chr "－") (fun _ => js "-")
  |> replaceAll (Chr "＋") (fun _ => js "+")
  |> toLowerCase.

Definition stripSpaces (s : jsstring) : jsstring :=
  replaceAll (Cls space) (fun _ => []) s.

(** The loop over [Object.keys(PRESETS)]: the first key contained in
    the text, white space removed on both sides. *)
Fixpoint findModel (keys : list jsstring) (text : jsstring)
  : option jsstring :=
  match keys with
  | [] => None
  | key :: rest =>
      let keyNorm := key |> toLowerCase |> stripSpaces in
      if includes (stripSpaces text) keyNorm then Some key
      else findModel rest text
  end.

Definition gPatterns : list regex :=
  [ Seqs [ Grp 1 (Alts [ Seq (Opt (Chr "総")) (Lit "回転数");
                         Lit "g数"; Lit "回転数" ]);
           Star (Cls space); Opt (Cls (chars ":：")); Star (Cls space);
           Grp 2 (Rep (Cls digit) 2 (Some 6%nat));
           Star (Cls space); Opt (Chr "g") ];
    Seqs [ Grp 1 (Rep (Cls digit) 3 (Some 6%nat));
           Star (Cls space); Chr "g"; NLook (Chr "/") ] ].

Definition bbPatterns : list regex :=
  [ Seqs [ Grp 1 (Alts [Lit "bb"; Lit "big"; Lit "ビッグ"]);
           Star (Cls space); Opt (Cls (chars ":：")); Star (Cls space);
           Grp 2 (Rep (Cls digit) 1 (Some 3%nat)) ] ].

Definition rbPatterns : list regex :=
  [ Seqs [ Grp 1 (Alts [Lit "rb"; Lit "reg"; Lit "レギュラー"]);
           Star (Cls space); Opt (Cls (chars ":：")); Star (Cls space);
           Grp 2 (Rep (Cls digit) 1 (Some 3%nat)) ] ].

Definition diffPatterns : list regex :=
  [ Seqs [ Grp 1 (Alts [ Seq (Lit "差枚") (Opt (Grp 2 (Chr "数")));
                         Lit "差玉"; Lit "差枚数" ]);
           Star (Cls space); Opt (Cls (chars ":：")); Star (Cls space);
           Grp 3 (Seq (Opt (Cls (chars "+-")))
                      (Rep (Cls digit) 1 (Some 6%nat))) ];
    Seqs [ Grp 1 (Seq (Cls (chars "+-")) (Rep (Cls digit) 1 (Some 6%nat)));
           Star (Cls space); Opt (Grp 2 (Chr "枚")) ] ].

(** The four field loops of [parseFromText], on the normalised text. *)
Definition extractG (text : jsstring) : option number :=
  option_map (fun m => parseIntGroup (or_else (group 2 m) (group 1 m)))
             (firstMatch gPatterns text).
Definition extractBig (text : jsstring) : option number :=
  option_map (fun m => parseIntGroup (group 2 m)) (firstMatch bbPatterns text).
Definition extractReg (text : jsstring) : option number :=
  option_map (fun m => parseIntGroup (group 2 m)) (firstMatch rbPatterns text).
Definition extractDiff (text : jsstring) : option number :=
  option_map (fun m => parseIntGroup (or_else (group 3 m) (group 1 m)))
             (firstMatch diffPatterns text).

(** [parseFromText(raw)]; [None] is [null]. *)
Definition parseFromText (raw : jsstring) : option Parsed.t :=
  match raw with
  | [] => None
  | _ =>
      let text := normalize raw in
      let modelKey := findModel (map fst PRESETS) text in
      let G := extractG text in
      let big := extractBig text in
      let reg := extractReg text in
      let diff := extractDiff text in
      match G, big, reg, diff with
      | None, None, None, None => None
      | _, _, _, _ => Some (Parsed.mk modelKey G big reg diff)
      end
  end.

(** The part of [handleImageFiles] that follows the recognition: the
    result of [parseFromText] is written into the state cells. *)
Definition applyParsed (parsed : option Parsed.t) (st : State.t) : State.t :=
  match parsed with
  | Some p =>
      let st :=
        match Parsed.modelKey p with
        | Some ((_ :: _) as key) =>
            match lookup key PRESETS with
            | Some _ =>
                match loadPreset key st with
                | Some st' => st'
                | None => st
                end
            | None => st
            end
        | _ => st
        end in
      let st := match Parsed.G p with
                | Some n => State.setG (VNum n) st | None => st end in
      let st := match Parsed.big p with
                | Some n => State.setBig (VNum n) st | None => st end in
      let st := match Parsed.reg p with
                | Some n => State.setReg (VNum n) st | None => st end in
      let st := match Parsed.diff p with
                | Some n => State.setDiff (VNum n) st | None => st end in
      st
  | None => st
  end.

(** [String.prototype.trim] *)
Definition trim (s : jsstring) : jsstring :=
  rev (dropWhile is_space (rev (dropWhile is_space s))).

(** [handleImageFiles], from the text [data.text] that the recognition
    returned on: it is trimmed, parsed and merged.  The recognition
    itself and the log are outside the model. *)
Definition handleImageFiles (dataText : jsstring) (st : State.t) : State.t :=
  applyParsed (parseFromText (trim dataText)) st.

(** [BRField]: what [onChange] stores for the text of the input. *)
Module BRField.
Definition onChange (targetValue : jsstring) : jsstring :=
  let raw := targetValue |> replaceAll (Cls notDigit) (fun _ => []) in
  raw |> slice0 4.
End BRField.

(** [NumberField]: what [onChange] stores. *)
Module NumberField.
Definition onChange (targetValue : jsstring) : jsstring :=
  let raw := targetValue |> replaceAll (Cls notDigit) (fun _ => []) in
  let clipped := raw |> slice0 6 in
  clipped.
End NumberField.

(** [DiffField]: what [onChange] stores: the leading sign and six
    digits. *)
Module DiffField.
Definition onChange (targetValue : jsstring) : jsstring :=
  let raw := targetValue |> replaceAll (Cls notDigitOrSign) (fun _ => []) in
  let sign := if startsWith (js "-") raw then js "-"
              else if startsWith (js "+") raw then js "+" else [] in
  let digits := raw |> replaceAll (Cls (chars "+-")) (fun _ => [])
                    |> slice0 6 in
  sign ++ digits.
End DiffField.

(** [formatProb(x)]; [toFixed] is [Number.prototype.toFixed], which the
    model takes as given. *)
Definition formatProb (toFixed : number -> nat -> jsstring) (x : number)
  : jsstring :=
  if negb (isFinite x) || leb x zero then js "-"
  else js "1/" ++ toFixed x 2%nat.

(** [HISTORY_MAX], [saveHistory] (the rows that are written to the
    storage) and [handleAddHistory] (the new [history] state and what
    is handed to the storage). *)
Definition HISTORY_MAX : nat := 10.

Definition saveHistory (rows : list HistoryRow.t) : list HistoryRow.t :=
  firstn HISTORY_MAX rows.

Definition handleAddHistory (toFixed : number -> nat -> jsstring)
           (st : State.t) (history : list HistoryRow.t)
  : list HistoryRow.t * list HistoryRow.t :=
  let lookup :=
    map (fun r => (fst r, Result.grapeProb (snd r))) (resultsByStrategy st) in
  let get key :=
    match entryGet key lookup with
    | Some x => x
    | None => Infinity
    end in
  let row :=
    HistoryRow.mk (State.modelKey st)
                  (formatProb toFixed (get (js "random")))
                  (formatProb toFixed (get (js "cherry90")))
                  (formatProb toFixed (get (js "cherry100")))
                  (formatProb toFixed (get (js "full"))) in
  let next := firstn HISTORY_MAX (row :: history) in
  (next, saveHistory next).

(** [handleReset]: the four inputs are cleared, nothing else. *)
Definition handleReset (st : State.t) : State.t :=
  let st := State.setG (VStr []) st in
  let st := State.setBig (VStr []) st in
  let st := State.setReg (VStr []) st in
  let st := State.setDiff (VStr []) st in
  st.

End Part000.

(* ================================================================== *)
(** * The calculation engine as the specification words it *)
(* ================================================================== *)

Module Spec.

(** One of the three "other" symbols: its denominator, its payout and
    the fraction of its hits that the strategy collects. *)
Record symbol : Type :=
  mkSymbol { denom : number; payout : number; captureFraction : number }.

Definition others (st : State.t) (capture : Capture.t) : list symbol :=
  [ mkSymbol (State.cherry st) (State.cherryPay st) (Capture.cherry capture);
    mkSymbol (State.bell st) (State.bellPay st) (Capture.bell capture);
    mkSymbol (State.piero st) (State.pieroPay st) (Capture.piero capture) ].

(** Sum of a list of numbers, left to right. *)
Definition sum (xs : list number) : number := fold_left add xs zero.

Definition coinIn (G replayDenom : number) : number :=
  (ofZ 3 * G - ofZ 3 * (G / replayDenom))%js.

Definition outJackpots (B R tier1AvgPayout tier2AvgPayout : number) : number :=
  (B * tier1AvgPayout + R * tier2AvgPayout)%js.

Definition outOthers (G : number) (syms : list symbol) : number :=
  sum (map (fun y => ((G / denom y) * payout y * captureFraction y)%js) syms).

Definition outKnown (G B R : number) (st : State.t) (capture : Capture.t)
  : number :=
  (outJackpots B R (State.bigAvg st) (State.regAvg st)
   + outOthers G (others st capture))%js.

Definition grapesCountRaw (G B R D : number) (st : State.t)
           (capture : Capture.t) : number :=
  ((D + coinIn G (State.replay st) - outKnown G B R st capture) / ofZ 8)%js.

(** [reconcile]: steps 1 to 7 of the specification, on the four
    numeric inputs. *)
Definition reconcile (G B R D : number) (st : State.t) (capture : Capture.t)
  : Result.t :=
  let grapesCount := max zero (grapesCountRaw G B R D st capture) in
  Result.mk grapesCount
            (if gtb grapesCount zero then (G / grapesCount)%js else Infinity).

End Spec.

(** The premises are usable: every one is finite and the four
    denominators are not zero. *)
Definition finite_nonzero (x : number) : bool :=
  match x with
  | Fin q => negb (qeqb q qzero)
  | _ => false
  end.

Definition premises_ok (st : State.t) : bool :=
  finite_nonzero (State.replay st) && finite_nonzero (State.cherry st)
  && finite_nonzero (State.bell st) && finite_nonzero (State.piero st)
  && isFinite (State.bigAvg st) && isFinite (State.regAvg st)
  && isFinite (State.cherryPay st) && isFinite (State.bellPay st)
  && isFinite (State.pieroPay st).

Definition capture_ok (c : Capture.t) : bool :=
  isFinite (Capture.cherry c) && isFinite (Capture.bell c)
  && isFinite (Capture.piero c).

(** The state of a session: the premises of a preset and the four
    inputs. *)
Definition session (key : jsstring) (np : Preset.t) (G big reg diff : value)
  : State.t :=
  State.mk key G big reg diff
    (Preset.replay np) (Preset.cherry np) (Preset.bell np) (Preset.piero np)
    (Preset.bigAvg np) (Preset.regAvg np)
    (Preset.cherryPay np) (Preset.bellPay np) (Preset.pieroPay np).

(** The raw grape count as a rational, for finite inputs and usable
    premises. *)
Definition rawQ (g b r d : Qc) (st : State.t) (c : Capture.t) : Qc :=
  ((d + (Q2Qc (inject_Z 3) * g
         - Q2Qc (inject_Z 3) * (g / qv (State.replay st)))
    - (b * qv (State.bigAvg st) + r * qv (State.regAvg st)
       + (g / qv (State.cherry st) * qv (State.cherryPay st)
            * qv (Capture.cherry c)
          + g / qv (State.bell st) * qv (State.bellPay st)
            * qv (Capture.bell c)
          + g / qv (State.piero st) * qv (State.pieroPay st)
            * qv (Capture.piero c))))
   / Q2Qc (inject_Z 8))%Qc.

(** The steps of the normalisation, code unit by code unit. *)
Module Normal.

(** The classes of the first two [replace] calls. *)
Definition fullwidthDigit : charset := [(0xFF10, 0xFF19)%Z].
Definition blank : charset := [(0x20, 0x20); (0x2C, 0x2C); (0x09, 0x09)]%Z.

(** A full-width digit becomes the ASCII digit. *)
Definition halfwidth (x : Z) : Z :=
  if in_set fullwidthDigit x then (x - 0xFF10 + 0x30)%Z else x.

(** A character of the class [cs] becomes [y]. *)
Definition subst (cs : charset) (y : Z) (x : Z) : Z :=
  if in_set cs x then y else x.

(** Each run of characters of [cs] becomes [rep]; [inrun] says that the
    previous character was in [cs]. *)
Fixpoint squeeze (cs : charset) (rep : jsstring) (inrun : bool)
         (s : jsstring) : jsstring :=
  match s with
  | [] => []
  | x :: s' =>
      if in_set cs x
      then (if inrun then [] else rep) ++ squeeze cs rep true s'
      else x :: squeeze cs rep false s'
  end.

(** The only blanks are single spaces. *)
Fixpoint tidy (inrun : bool) (s : jsstring) : bool :=
  match s with
  | [] => true
  | x :: s' =>
      if in_set blank x
      then (x =? 0x20)%Z && negb inrun && tidy true s'
      else tidy false s'
  end.

(** The three glyph replacements, then all four last steps, on one
    code unit. *)
Definition unwiden (x : Z) : Z :=
  subst (chars "＋") 0x2B (subst (chars "－") 0x2D (subst (chars "Ｇ") 0x47 x)).

Definition fold_unit (x : Z) : Z := lower_unit (unwiden x).

End Normal.

(** The two spin-count patterns: the labelled one and the fallback. *)
Definition gLabeled : regex := nth 0 AppTsx.gPatterns Eps.
Definition gFallback : regex := nth 1 AppTsx.gPatterns Eps.

(** The extraction result names a preset: [parsed.modelKey &&
    PRESETS[parsed.modelKey]] is truthy. *)
Definition namesPreset (tbl : list (jsstring * Preset.t)) (p : Parsed.t)
  : bool :=
  match Parsed.modelKey p with
  | Some ((_ :: _) as key) =>
      match lookup key tbl with
      | Some _ => true
      | None => false
      end
  | _ => false
  end.

(** Sessions used as concrete inputs below. *)
Module Examples.

Definition noPreset : Preset.t := Preset.mk NaN NaN NaN NaN NaN NaN NaN NaN NaN.
Definition noCapture : Capture.t := Capture.mk NaN NaN NaN.

(** The first preset of the table and the capture objects of the
    strategies [random] and [cherry100]. *)
Definition myJuggler : Preset.t :=
  match lookup (js "マイジャグラーV") AppTsx.PRESETS with
  | Some np => np
  | None => noPreset
  end.
Definition random : Capture.t :=
  Strategy.capture
    (nth 0 AppTsx.STRATEGIES (Strategy.mk [] [] noCapture)).
Definition cherry100 : Capture.t :=
  Strategy.capture
    (nth 2 AppTsx.STRATEGIES (Strategy.mk [] [] noCapture)).

Definition num (z : Z) : value := VNum (ofZ z).

(** 3000 spins, 10 and 10 jackpots, difference 0: the scenario of the
    specification. *)
Definition scenario : State.t :=
  session (js "マイジャグラーV") myJuggler (num 3000) (num 10) (num 10) (num 0).

(** No spin, no jackpot, and 800 coins won. *)
Definition noSpins : State.t :=
  session (js "マイジャグラーV") myJuggler (num 0) (num 0) (num 0) (num 800).

(** The scenario after the bell denominator was edited to 0. *)
Definition bellZero : State.t :=
  State.mk (js "マイジャグラーV") (num 3000) (num 10) (num 10) (num 0)
    (Preset.replay myJuggler) (Preset.cherry myJuggler) zero
    (Preset.piero myJuggler) (Preset.bigAvg myJuggler)
    (Preset.regAvg myJuggler) (Preset.cherryPay myJuggler)
    (Preset.bellPay myJuggler) (Preset.pieroPay myJuggler).

End Examples.

(** The capture object of the strategy [full]. *)
Definition fullCapture : Capture.t :=
  Strategy.capture
    (nth 3 AppTsx.STRATEGIES (Strategy.mk [] [] Examples.noCapture)).

(** Premises as the presets have them: positive denominators and
    non-negative payouts. *)
Definition positive (x : number) : bool :=
  match x with
  | Fin q => qltb qzero q
  | _ => false
  end.

Definition nonneg (x : number) : bool :=
  match x with
  | Fin q => qleb qzero q
  | _ => false
  end.

Definition premises_pos (st : State.t) : bool :=
  positive (State.replay st) && positive (State.cherry st)
  && positive (State.bell st) && positive (State.piero st)
  && nonneg (State.bigAvg st) && nonneg (State.regAvg st)
  && nonneg (State.cherryPay st) && nonneg (State.bellPay st)
  && nonneg (State.pieroPay st).

(** The state with the four inputs replaced by numbers. *)
Definition withInputs (st : State.t) (g b r d : number) : State.t :=
  State.setDiff (VNum d)
    (State.setReg (VNum r) (State.setBig (VNum b) (State.setG (VNum g) st))).

(** The nine premises of a state, as a preset. *)
Definition premisesOf (st : State.t) : Preset.t :=
  Preset.mk (State.replay st) (State.cherry st) (State.bell st)
            (State.piero st) (State.bigAvg st) (State.regAvg st)
            (State.cherryPay st) (State.bellPay st) (State.pieroPay st).

(* ================================================================== *)
(** * Facts about numbers *)
(* ================================================================== *)

Section NumberFacts.

Lemma qeqb_eq (a b : Qc) : qeqb a b = true <-> a = b.
Proof.
  unfold qeqb. rewrite Qeq_bool_iff. split.
  - apply Qc_is_canon.
  - intros ->. reflexivity.
Qed.

Lemma qeqb_neq (a b : Qc) : qeqb a b = false <-> a <> b.
Proof.
  rewrite <- qeqb_eq. destruct (qeqb a b); split; congruence.
Qed.

Lemma qleb_le (a b : Qc) : qleb a b = true <-> (a <= b)%Qc.
Proof. unfold qleb, Qcle. apply Qle_bool_iff. Qed.

Lemma qltb_lt (a b : Qc) : qltb a b = true <-> (a < b)%Qc.
Proof.
  unfold qltb, Qclt. rewrite negb_true_iff.
  split.
  - intros H. apply Qnot_le_lt. intros Hle.
    apply Qle_bool_iff in Hle. congruence.
  - intros H. destruct (Qle_bool b a) eqn:E; [|reflexivity].
    apply Qle_bool_iff in E. exfalso. exact (Qlt_not_le _ _ H E).
Qed.

Lemma qltb_ge (a b : Qc) : qltb a b = false <-> (b <= a)%Qc.
Proof.
  unfold qltb, Qcle. rewrite negb_false_iff. apply Qle_bool_iff.
Qed.

Lemma add_zero_l (x : number) : (zero + x)%js = x.
Proof.
  destruct x; simpl; try reflexivity.
  f_equal. apply Qcplus_0_l.
Qed.

Lemma finite_nonzero_inv (x : number) :
  finite_nonzero x = true -> exists q, x = Fin q /\ q <> qzero.
Proof.
  destruct x; simpl; try discriminate.
  intros H. exists q. split; [reflexivity|].
  apply qeqb_neq. now apply negb_true_iff.
Qed.

Lemma isFinite_inv (x : number) : isFinite x = true -> exists q, x = Fin q.
Proof. destruct x; simpl; try discriminate. eauto. Qed.

Lemma div_fin (a b : Qc) : b <> qzero -> (Fin a / Fin b)%js = Fin (a / b)%Qc.
Proof.
  intros H. simpl. apply qeqb_neq in H. rewrite H. reflexivity.
Qed.

Lemma eight_nonzero : Q2Qc (inject_Z 8) <> qzero.
Proof. apply qeqb_neq. reflexivity. Qed.

Lemma max_zero_fin (x : Qc) :
  max zero (Fin x) = if qltb qzero x then Fin x else zero.
Proof. reflexivity. Qed.

Lemma max_zero_mono (x y : Qc) :
  (x <= y)%Qc -> le (max zero (Fin x)) (max zero (Fin y)).
Proof.
  intros H. rewrite !max_zero_fin. unfold le, zero, ofZ.
  destruct (qltb qzero x) eqn:Ex, (qltb qzero y) eqn:Ey; simpl.
  - now apply qleb_le.
  - apply qltb_lt in Ex. apply qltb_ge in Ey. exfalso.
    apply (Qclt_not_le _ _ Ex). eapply Qcle_trans; eauto.
  - apply qltb_lt in Ey. apply qleb_le. now apply Qclt_le_weak.
  - reflexivity.
Qed.

Lemma inv8_pos : (0 < / Q2Qc (inject_Z 8))%Qc.
Proof. reflexivity. Qed.

Lemma eight_pos : (0 < Q2Qc (inject_Z 8))%Qc.
Proof. reflexivity. Qed.

Lemma div8_mono (x y : Qc) :
  (x <= y)%Qc -> (x / Q2Qc (inject_Z 8) <= y / Q2Qc (inject_Z 8))%Qc.
Proof.
  intros H. unfold Qcdiv. apply Qcmult_le_compat_r; [assumption|].
  apply Qclt_le_weak, inv8_pos.
Qed.

Lemma div8_pos (x : Qc) : (0 < x / Q2Qc (inject_Z 8))%Qc <-> (0 < x)%Qc.
Proof.
  split; intros H.
  - apply (Qcmult_lt_compat_r _ _ _ eight_pos) in H.
    rewrite Qcmult_0_l in H.
    replace (x / Q2Qc (inject_Z 8) * Q2Qc (inject_Z 8))%Qc with x in H;
      [assumption|].
    field. apply eight_nonzero.
  - unfold Qcdiv. rewrite <- (Qcmult_0_l (/ Q2Qc (inject_Z 8))).
    apply Qcmult_lt_compat_r; [apply inv8_pos | assumption].
Qed.

Lemma minus_pos (x y : Qc) : (0 < x - y)%Qc <-> (y < x)%Qc.
Proof. unfold Qcminus. symmetry. apply Qclt_minus_iff. Qed.

Lemma Fin_inj (a b : Qc) : Fin a = Fin b -> a = b.
Proof. congruence. Qed.

Lemma same_eq (x y : number) : same x y = true <-> x = y.
Proof.
  destruct x, y; simpl; split; try congruence; try reflexivity.
  - intros H. apply eqb_prop in H. congruence.
  - intros [= ->]. apply eqb_reflx.
  - intros H. apply qeqb_eq in H. congruence.
  - intros [= ->]. now apply qeqb_eq.
Qed.

End NumberFacts.

(** Closes a goal [x = y] between two closed numbers by evaluation. *)
Ltac same_number := apply same_eq; vm_compute; reflexivity.

(* ================================================================== *)
(** * The calculation engine *)
(* ================================================================== *)

Module EngineFacts.
Import AppTsx.

Lemma numberOr_finite (v : value) : exists q, numberOr v zero = Fin q.
Proof.
  unfold numberOr. destruct (numberOr_n v) eqn:E; simpl; eauto;
    unfold zero, ofZ; eauto.
Qed.

Lemma numberOr_num (q : Qc) (d : number) : numberOr (VNum (Fin q)) d = Fin q.
Proof. reflexivity. Qed.

Lemma numberOr_fallback (v : value) (d : number) :
  isFinite (numberOr_n v) = false -> numberOr v d = d.
Proof. unfold numberOr. intros ->. reflexivity. Qed.

(** The code computes what the specification writes, whatever the four
    coerced inputs are. *)
Lemma calc_reconcile (st : State.t) (capture : Capture.t) :
  calcResultByCapture st capture =
  Spec.reconcile (numberOr (State.G st) zero) (numberOr (State.big st) zero)
                 (numberOr (State.reg st) zero) (numberOr (State.diff st) zero)
                 st capture.
Proof.
  unfold calcResultByCapture, Spec.reconcile, Spec.grapesCountRaw,
    Spec.outKnown, Spec.outOthers, Spec.outJackpots, Spec.coinIn, Spec.sum,
    Spec.others.
  cbn [map fold_left Spec.denom Spec.payout Spec.captureFraction].
  rewrite add_zero_l. reflexivity.
Qed.

Lemma raw_fin (st : State.t) (c : Capture.t) (g b r d : Qc) :
  premises_ok st = true -> capture_ok c = true ->
  Spec.grapesCountRaw (Fin g) (Fin b) (Fin r) (Fin d) st c
  = Fin (rawQ g b r d st c).
Proof.
  destruct st as [mk G0 B0 R0 D0 rp ch be pi ba ra cp bp pp].
  destruct c as [cc bc pc].
  unfold premises_ok, capture_ok; cbn [State.replay State.cherry State.bell
    State.piero State.bigAvg State.regAvg State.cherryPay State.bellPay
    State.pieroPay Capture.cherry Capture.bell Capture.piero].
  rewrite !andb_true_iff.
  intros [[[[[[[[H1 H2] H3] H4] H5] H6] H7] H8] H9] [[K1 K2] K3].
  apply finite_nonzero_inv in H1, H2, H3, H4.
  apply isFinite_inv in H5, H6, H7, H8, H9, K1, K2, K3.
  destruct H1 as (q1 & -> & N1), H2 as (q2 & -> & N2),
    H3 as (q3 & -> & N3), H4 as (q4 & -> & N4).
  destruct H5 as (q5 & ->), H6 as (q6 & ->), H7 as (q7 & ->),
    H8 as (q8 & ->), H9 as (q9 & ->), K1 as (k1 & ->), K2 as (k2 & ->),
    K3 as (k3 & ->).
  unfold Spec.grapesCountRaw, Spec.outKnown, Spec.outOthers,
    Spec.outJackpots, Spec.coinIn, Spec.sum, Spec.others, rawQ.
  cbn [map fold_left Spec.denom Spec.payout Spec.captureFraction
       State.replay State.cherry State.bell
    State.piero State.bigAvg State.regAvg State.cherryPay State.bellPay
    State.pieroPay Capture.cherry Capture.bell Capture.piero qv].
  rewrite add_zero_l. unfold ofZ.
  rewrite !div_fin by assumption.
  cbn [add sub mul].
  rewrite div_fin by apply eight_nonzero.
  reflexivity.
Qed.

End EngineFacts.

Section Engine.
Import AppTsx EngineFacts.

(** Every preset of the table gives usable premises, and every
    strategy of the table finite capture fractions. *)
Lemma presets_usable (key : jsstring) (np : Preset.t) (G big reg diff : value) :
  In (key, np) PRESETS -> premises_ok (session key np G big reg diff) = true.
Proof.
  unfold PRESETS. cbn [In].
  intros [H|[H|[H|[H|[H|[H|[]]]]]]]; injection H as <- <-;
    vm_compute; reflexivity.
Qed.

Lemma strategies_usable (s : Strategy.t) :
  In s STRATEGIES -> capture_ok (Strategy.capture s) = true.
Proof.
  unfold STRATEGIES. cbn [In].
  intros [<-|[<-|[<-|[<-|[]]]]]; vm_compute; reflexivity.
Qed.

(** The scenario of the specification: 3000 spins, 10 and 10 jackpots,
    difference 0, every cherry collected and nothing else.  The grape
    count is 46580785/87576, about 531.89, and the probability is
    1 in 52545600/9316157, about 5.64. *)
Lemma scenario_value :
  calcResultByCapture Examples.scenario Examples.cherry100
  = Result.mk (Fin (Q2Qc (46580785 # 87576)))
              (Fin (Q2Qc (52545600 # 9316157))).
Proof.
  assert (E : forall a b, a = b -> forall c d, c = d ->
                          Result.mk a c = Result.mk b d)
    by (intros; subst; reflexivity).
  change (calcResultByCapture Examples.scenario Examples.cherry100)
    with (Result.mk
            (Result.grapesCount
               (calcResultByCapture Examples.scenario Examples.cherry100))
            (Result.grapeProb
               (calcResultByCapture Examples.scenario Examples.cherry100))).
  apply E; same_number.
Qed.

(** C1.  For finite numeric inputs G, B, R and D, whatever the premises
    and the capture fractions, [calcResultByCapture] returns the
    [reconcile] of the specification: grapesCount is
    [max(0, (D + coinIn - outKnown) / 8)] and grapeProbability is
    [G / grapesCount] when grapesCount is positive and [+Infinity]
    otherwise. *)
Theorem calcResultByCapture_formula
        (st : State.t) (capture : Capture.t) (g b r d : Qc) :
  State.G st = VNum (Fin g) -> State.big st = VNum (Fin b) ->
  State.reg st = VNum (Fin r) -> State.diff st = VNum (Fin d) ->
  calcResultByCapture st capture
  = Spec.reconcile (Fin g) (Fin b) (Fin r) (Fin d) st capture.
Proof.
  intros HG HB HR HD. rewrite calc_reconcile, HG, HB, HR, HD.
  reflexivity.
Qed.

Lemma calcResultByCapture_formula_witness :
  calcResultByCapture Examples.scenario Examples.random
  = Spec.reconcile (ofZ 3000) (ofZ 10) (ofZ 10) (ofZ 0)
                   Examples.scenario Examples.random.
Proof.
  apply (@calcResultByCapture_formula Examples.scenario Examples.random);
    reflexivity.
Defined.






(** C7.  A field whose value does not parse as a finite number counts
    as 0: the result is the one computed with the number 0 in that
    field, for each of the four fields, whatever the premises and the
    capture fractions.  No error is raised: the functions are total. *)
Theorem malformed_field_is_zero
        (st : State.t) (capture : Capture.t) (v : value) :
  isFinite (numberOr_n v) = false ->
  calcResultByCapture (State.setG v st) capture
  = calcResultByCapture (State.setG (VNum zero) st) capture
  /\ calcResultByCapture (State.setBig v st) capture
     = calcResultByCapture (State.setBig (VNum zero) st) capture
  /\ calcResultByCapture (State.setReg v st) capture
     = calcResultByCapture (State.setReg (VNum zero) st) capture
  /\ calcResultByCapture (State.setDiff v st) capture
     = calcResultByCapture (State.setDiff (VNum zero) st) capture.
Proof.
  intros H. unfold calcResultByCapture.
  destruct st as [mk G0 B0 R0 D0 rp ch be pi ba ra cp bp pp].
  cbn [State.setG State.setBig State.setReg State.setDiff
       State.G State.big State.reg State.diff State.modelKey
       State.replay State.cherry State.bell
       State.piero State.bigAvg State.regAvg State.cherryPay State.bellPay
       State.pieroPay].
  rewrite (numberOr_fallback v zero H).
  change (numberOr (VNum zero) zero) with zero.
  repeat split; reflexivity.
Qed.

Lemma malformed_field_is_zero_witness :
  let st := Examples.scenario in
  let capture := Examples.random in
  let v := VStr (js "abc") in
  calcResultByCapture (State.setG v st) capture
  = calcResultByCapture (State.setG (VNum zero) st) capture
  /\ calcResultByCapture (State.setBig v st) capture
     = calcResultByCapture (State.setBig (VNum zero) st) capture
  /\ calcResultByCapture (State.setReg v st) capture
     = calcResultByCapture (State.setReg (VNum zero) st) capture
  /\ calcResultByCapture (State.setDiff v st) capture
     = calcResultByCapture (State.setDiff (VNum zero) st) capture.
Proof.
  apply (@malformed_field_is_zero Examples.scenario Examples.random
                                  (VStr (js "abc"))).
  vm_compute. reflexivity.
Defined.


Lemma max_zero_cases (x : number) :
  max zero x = NaN \/ max zero x = Infinity
  \/ exists q, max zero x = Fin q /\ (0 <= q)%Qc.
Proof.
  destruct x as [|[|]|q].
  - left. reflexivity.
  - right. right. exists qzero. split; [reflexivity | apply Qcle_refl].
  - right. left. reflexivity.
  - right. right. rewrite max_zero_fin.
    destruct (qltb qzero q) eqn:E.
    + exists q. split; [reflexivity|].
      apply Qclt_le_weak. now apply qltb_lt.
    + exists qzero. split; [reflexivity | apply Qcle_refl].
Qed.



End Engine.

(* ================================================================== *)
(** * The matcher finds only matches *)
(* ================================================================== *)

Module RegexFacts.

Lemma iter_snoc step n s c s1 c1 s' c' :
  step s c s1 c1 -> iter step n s1 c1 s' c' -> iter step (S n) s c s' c'.
Proof. intros H1 H2. simpl. eauto. Qed.

(** The quantifier loop over a sound body matcher is sound. *)
Lemma rep_loop_sound
      (m : jsstring -> captures -> (jsstring -> captures -> answer) -> answer)
      (step : jsstring -> captures -> jsstring -> captures -> Prop)
      (lo : nat) (hi : option nat) (k : jsstring -> captures -> answer) :
  (forall s c k' a, m s c k' = Some a ->
     exists s1 c1, step s c s1 c1 /\ k' s1 c1 = Some a) ->
  forall fuel cnt s c a,
    within cnt hi ->
    rep_loop m lo hi k fuel cnt s c = Some a ->
    exists n s' c',
      iter step n s c s' c' /\ (lo <= cnt + n)%nat /\ within (cnt + n) hi
      /\ k s' c' = Some a.
Proof.
  intros Hm. induction fuel as [|fuel IH]; intros cnt s c a Hw H.
  - simpl in H. destruct (Nat.leb lo cnt) eqn:E; [|discriminate].
    apply Nat.leb_le in E. exists 0%nat, s, c.
    rewrite Nat.add_0_r. simpl. auto.
  - simpl in H.
    assert (Hstop : (if Nat.leb lo cnt then k s c else None) = Some a ->
                    exists n s' c',
                      iter step n s c s' c' /\ (lo <= cnt + n)%nat
                      /\ within (cnt + n) hi /\ k s' c' = Some a).
    { intros H0. destruct (Nat.leb lo cnt) eqn:E; [|discriminate].
      apply Nat.leb_le in E. exists 0%nat, s, c.
      rewrite Nat.add_0_r. simpl. auto. }
    destruct (below cnt hi) eqn:Eb; [|auto].
    match type of H with
    | match ?X with _ => _ end = _ => destruct X as [a'|] eqn:Em
    end; [|auto].
    injection H as ->.
    apply Hm in Em. destruct Em as (s1 & c1 & Hs & Hk).
    destruct (Nat.ltb (List.length s1) (List.length s) || Nat.ltb cnt lo);
      [|discriminate].
    apply IH in Hk.
    + destruct Hk as (n & s' & c' & Hi & Hlo & Hhi & Hk).
      exists (S n), s', c'. rewrite Nat.add_succ_r.
      repeat split; try assumption. eapply iter_snoc; eauto.
    + destruct hi as [h|]; simpl in *; [|exact I].
      apply Nat.ltb_lt in Eb. lia.
Qed.

(** Soundness of the backtracking matcher. *)
Lemma rmatch_sound (r : regex) :
  forall s c k a,
    rmatch r s c k = Some a ->
    exists s' c', matches r s c s' c' /\ k s' c' = Some a.
Proof.
  induction r as [|cs|r1 IH1 r2 IH2|r1 IH1 r2 IH2|r1 IH lo hi|n r1 IH|r1 IH];
    intros s c k a H; simpl in H.
  - exists s, c. simpl. auto.
  - destruct s as [|x s']; [discriminate|].
    destruct (in_set cs x) eqn:E; [|discriminate].
    exists s', c. simpl. eauto.
  - apply IH1 in H. destruct H as (s1 & c1 & H1 & H).
    apply IH2 in H. destruct H as (s' & c' & H2 & H).
    exists s', c'. simpl. eauto.
  - destruct (rmatch r1 s c k) as [a'|] eqn:E.
    + injection H as ->. apply IH1 in E.
      destruct E as (s' & c' & H1 & H). exists s', c'. simpl. auto.
    + apply IH2 in H. destruct H as (s' & c' & H2 & H).
      exists s', c'. simpl. auto.
  - apply (rep_loop_sound (rmatch r1) (matches r1) lo hi k IH) in H.
    + destruct H as (n & s' & c' & Hi & Hlo & Hhi & H).
      exists s', c'. split; [|assumption]. simpl. exists n. auto.
    + destruct hi; simpl; [lia | exact I].
  - apply IH in H. destruct H as (s' & c' & H1 & H).
    exists s', ((n, consumed s s') :: c'). simpl. eauto.
  - destruct (rmatch r1 s c (fun s1 c1 => Some (s1, c1))) eqn:E;
      [discriminate|].
    exists s, c. simpl. auto.
Qed.

(** [exec] returns the captures of a match somewhere in the text. *)
Lemma exec_sound (r : regex) (s : jsstring) (m : captures) :
  exec r s = Some m ->
  exists pre s0 s', s = pre ++ s0 /\ matches r s0 [] s' m.
Proof.
  induction s as [|x s IH]; simpl; unfold match_at.
  - destruct (rmatch r [] [] (fun s1 c1 => Some (s1, c1))) as [[s' c']|] eqn:E;
      [|discriminate].
    intros [= <-]. apply rmatch_sound in E.
    destruct E as (s2 & c2 & Hm & [= <- <-]). exists [], [], s2. auto.
  - destruct (rmatch r (x :: s) [] (fun s1 c1 => Some (s1, c1)))
      as [[s' c']|] eqn:E.
    + intros [= <-]. apply rmatch_sound in E.
      destruct E as (s2 & c2 & Hm & [= <- <-]). exists [], (x :: s), s2. auto.
    + intros H. apply IH in H. destruct H as (pre & s0 & s' & -> & Hm).
      exists (x :: pre), s0, s'. auto.
Qed.

(** A run of [n] characters of a class. *)
Lemma iter_cls (cs : charset) :
  forall n s c s' c',
    iter (matches (Cls cs)) n s c s' c' ->
    exists run, s = run ++ s' /\ List.length run = n
                /\ Forall (fun x => in_set cs x = true) run /\ c' = c.
Proof.
  induction n as [|n IH]; intros s c s' c' H; simpl in H.
  - destruct H as [-> ->]. exists []. auto.
  - destruct H as (s1 & c1 & (x & -> & Hx & ->) & H).
    apply IH in H. destruct H as (run & -> & Hl & Hf & ->).
    exists (x :: run). simpl. auto.
Qed.

Lemma consumed_app (run rest : jsstring) : consumed (run ++ rest) rest = run.
Proof.
  unfold consumed. rewrite length_app.
  replace (List.length run + List.length rest - List.length rest)%nat
    with (List.length run) by lia.
  rewrite firstn_app, Nat.sub_diag, firstn_all. simpl.
  apply app_nil_r.
Qed.

End RegexFacts.

(* ================================================================== *)
(** * The extraction pipeline *)
(* ================================================================== *)

Section Extraction.
Import AppTsx RegexFacts.

Lemma chr_inv (l : string) (x : Z) :
  List.length (js l) = 1%nat -> in_set (chars l) x = true -> x = ch l.
Proof.
  unfold chars, ch. destruct (js l) as [|y [|? ?]]; try discriminate.
  intros _. simpl. unfold between. intros H. lia.
Qed.

(** What a match of the fallback pattern [(\d{3,6})\s*g(?!\/)] is. *)
Lemma fallback_shape (text : jsstring) (m : captures) :
  exec gFallback text = Some m ->
  exists pre ds ws post,
    text = pre ++ ds ++ ws ++ ch "g" :: post
    /\ (3 <= List.length ds <= 6)%nat
    /\ Forall (fun x => is_digit x = true) ds
    /\ Forall (fun x => is_space x = true) ws
    /\ (forall t, post <> ch "/" :: t)
    /\ m = [(1%nat, ds)].
Proof.
  intros H. apply exec_sound in H.
  destruct H as (pre & s0 & s' & -> & H).
  unfold gFallback, gPatterns in H. cbn [nth Seqs] in H.
  destruct H as (s1 & c1 & (c0 & (n & Hlo & Hhi & Hd) & ->) & H).
  destruct H as (s2 & c2 & (k & _ & _ & Hw) & H).
  destruct H as (s3 & c3 & (x & -> & Hx & ->) & -> & -> & Hn).
  apply (iter_cls digit) in Hd. destruct Hd as (ds & -> & Hl & Hds & ->).
  apply (iter_cls space) in Hw. destruct Hw as (ws & -> & _ & Hws & ->).
  apply chr_inv in Hx; [subst x | reflexivity].
  rewrite consumed_app.
  exists pre, ds, ws, s3. simpl in Hhi.
  repeat split; try assumption; try lia.
  intros t ->. simpl in Hn. discriminate.
Qed.

Lemma parseFromText_some (raw : jsstring) (p : Parsed.t) :
  parseFromText raw = Some p ->
  p = Parsed.mk (findModel (map fst PRESETS) (normalize raw))
                (extractG (normalize raw)) (extractBig (normalize raw))
                (extractReg (normalize raw)) (extractDiff (normalize raw)).
Proof.
  unfold parseFromText. destruct raw as [|x raw]; [discriminate|].
  destruct (extractG _), (extractBig _), (extractReg _), (extractDiff _);
    congruence.
Qed.

(** The extraction examples of the specification, and a run whose unit
    letter is followed by a slash. *)
Lemma extraction_examples :
  parseFromText (js "total spins: 3200G")
  = Some (Parsed.mk None (Some (ofZ 3200)) None None None)
  /\ parseFromText (js "BIG 12")
     = Some (Parsed.mk None None (Some (ofZ 12)) None None)
  /\ parseFromText (js "no number here") = None
  /\ parseFromText (js "150g/") = None
  /\ parseFromText (js "総回転数：３２００Ｇ 差枚 －1250枚")
     = Some (Parsed.mk None (Some (ofZ 3200)) None None (Some (ofZ (-1250)))).
Proof. repeat split; vm_compute; reflexivity. Qed.

(** C3, counterexample.  The text "1/150G" has no labelled spin count,
    and the fallback takes the denominator of the ratio: the spin count
    is set to 150. *)
Lemma ratio_denominator_counterexample :
  exec gLabeled (normalize (js "1/150G")) = None
  /\ option_map Parsed.G (parseFromText (js "1/150G"))
     = Some (Some (ofZ 150)).
Proof. split; vm_compute; reflexivity. Qed.

(** C3, amended.  When no labelled spin count is found and the spin
    count is set, it is the value of a run of 3 to 6 digits that is
    followed, after optional white space, by the unit letter g, and
    that g is not followed by a slash.  Nothing is asked of what stands
    before the run: the denominator of a ratio qualifies. *)
Theorem fallback_spin_count (raw : jsstring) (p : Parsed.t) (n : number) :
  parseFromText raw = Some p ->
  exec gLabeled (normalize raw) = None ->
  Parsed.G p = Some n ->
  exists pre ds ws post,
    normalize raw = pre ++ ds ++ ws ++ ch "g" :: post
    /\ (3 <= List.length ds <= 6)%nat
    /\ Forall (fun x => is_digit x = true) ds
    /\ Forall (fun x => is_space x = true) ws
    /\ (forall t, post <> ch "/" :: t)
    /\ n = parseInt ds.
Proof.
  intros Hp Hl Hn. apply parseFromText_some in Hp. subst p.
  cbn [Parsed.G] in Hn. unfold extractG, gPatterns in Hn.
  cbn [firstMatch] in Hn. unfold gLabeled, gPatterns in Hl.
  cbn [nth] in Hl. rewrite Hl in Hn.
  match type of Hn with
  | context [exec ?r ?t] =>
      change (exec r t) with (exec gFallback t) in Hn;
      destruct (exec gFallback t) as [m|] eqn:E
  end; [|discriminate].
  injection Hn as <-.
  apply fallback_shape in E.
  destruct E as (pre & ds & ws & post & Ht & Hlen & Hds & Hws & Hpost & ->).
  exists pre, ds, ws, post. repeat split; try assumption; try lia.
Qed.

Lemma fallback_spin_count_witness :
  exists pre ds ws post,
    normalize (js "1/150G") = pre ++ ds ++ ws ++ ch "g" :: post
    /\ (3 <= List.length ds <= 6)%nat
    /\ Forall (fun x => is_digit x = true) ds
    /\ Forall (fun x => is_space x = true) ws
    /\ (forall t, post <> ch "/" :: t)
    /\ ofZ 150 = parseInt ds.
Proof.
  apply (@fallback_spin_count (js "1/150G")
           (Parsed.mk None (Some (ofZ 150)) None None None) (ofZ 150));
    vm_compute; reflexivity.
Defined.

(** A field is absent exactly when none of its patterns matches. *)
Lemma extract_none_iff (text : jsstring) :
  (extractG text = None <-> firstMatch gPatterns text = None)
  /\ (extractBig text = None <-> firstMatch bbPatterns text = None)
  /\ (extractReg text = None <-> firstMatch rbPatterns text = None)
  /\ (extractDiff text = None <-> firstMatch diffPatterns text = None).
Proof.
  unfold extractG, extractBig, extractReg, extractDiff.
  repeat split; intros H;
    match goal with
    | |- context [firstMatch ?ps ?t] =>
        destruct (firstMatch ps t); simpl in *; congruence
    | H : context [firstMatch ?ps ?t] |- _ =>
        destruct (firstMatch ps t); simpl in *; congruence
    end.
Qed.

(** C6.  [parseFromText] returns null exactly when no pattern of any of
    the four numeric fields matches the normalised text; the model name
    has no part in this, and a text with a model name and no number
    gives null.  When it is not null the record holds the model name
    and the four fields as they were found, each field absent exactly
    when none of its patterns matches. *)
Theorem parseFromText_null_iff (raw : jsstring) :
  let text := normalize raw in
  (parseFromText raw = None <->
   firstMatch gPatterns text = None /\ firstMatch bbPatterns text = None
   /\ firstMatch rbPatterns text = None
   /\ firstMatch diffPatterns text = None)
  /\ (forall p, parseFromText raw = Some p ->
      Parsed.modelKey p = findModel (map fst PRESETS) text
      /\ Parsed.G p = extractG text /\ Parsed.big p = extractBig text
      /\ Parsed.reg p = extractReg text /\ Parsed.diff p = extractDiff text
      /\ (Parsed.G p = None <-> firstMatch gPatterns text = None)
      /\ (Parsed.big p = None <-> firstMatch bbPatterns text = None)
      /\ (Parsed.reg p = None <-> firstMatch rbPatterns text = None)
      /\ (Parsed.diff p = None <-> firstMatch diffPatterns text = None))
  /\ (findModel (map fst PRESETS) (normalize (js "マイジャグラーV")) <> None
      /\ parseFromText (js "マイジャグラーV") = None).
Proof.
  intros text. destruct (extract_none_iff text) as (E1 & E2 & E3 & E4).
  split; [|split].
  - rewrite <- E1, <- E2, <- E3, <- E4.
    unfold parseFromText. destruct raw as [|x raw].
    + split; [intros _ | reflexivity]. repeat split; vm_compute; reflexivity.
    + fold text.
      destruct (extractG text), (extractBig text), (extractReg text),
        (extractDiff text); split; intros H;
        try discriminate; try reflexivity;
        try (destruct H as (? & ? & ? & ?); discriminate);
        repeat split; reflexivity.
  - intros p Hp. apply parseFromText_some in Hp. subst p.
    cbn [Parsed.modelKey Parsed.G Parsed.big Parsed.reg Parsed.diff].
    fold text. repeat split; try reflexivity;
      try apply E1; try apply E2; try apply E3; try apply E4.
  - split; [vm_compute; discriminate | vm_compute; reflexivity].
Qed.

Lemma parseFromText_null_iff_witness :
  Parsed.G (Parsed.mk None (Some (ofZ 150)) None None None)
  = extractG (normalize (js "1/150G")).
Proof.
  apply (proj1 (proj2 (parseFromText_null_iff (js "1/150G")))
               (Parsed.mk None (Some (ofZ 150)) None None None)).
  vm_compute. reflexivity.
Defined.

End Extraction.

(* ================================================================== *)
(** * Merging the extraction result into the state *)
(* ================================================================== *)

Section Merge.

Ltac state_fields :=
  cbv beta iota zeta
      delta [State.setModelKey State.setPremises State.setG State.setBig
             State.setReg State.setDiff State.modelKey State.G State.big
             State.reg State.diff State.replay State.cherry State.bell
             State.piero State.bigAvg State.regAvg State.cherryPay
             State.bellPay State.pieroPay].

(** The text "マイジャグラーV 3200G" gives a model name and a spin
    count, and nothing else. *)
Lemma model_and_spins :
  Part000.parseFromText (js "マイジャグラーV 3200G")
  = Some (Parsed.mk (Some (js "マイジャグラーV")) (Some (ofZ 3200))
                    None None None).
Proof. vm_compute. reflexivity. Qed.

(** C4, counterexample.  In [part_000] the text "マイジャグラーV 3200G"
    carries no BIG count, yet after the merge the BIG field, which held
    10, is the empty string: [loadPreset] cleared it. *)
Lemma absent_field_counterexample :
  option_map Parsed.big (Part000.parseFromText (js "マイジャグラーV 3200G"))
  = Some None
  /\ State.big Examples.scenario = Examples.num 10
  /\ State.big (Part000.handleImageFiles (js "マイジャグラーV 3200G")
                                            Examples.scenario)
     = VStr []
  /\ VStr [] <> Examples.num 10.
Proof.
  repeat split; try (vm_compute; reflexivity).
  unfold Examples.num. discriminate.
Qed.

(** C4, amended.  In [part_000] a field that is present in the result
    is written; a field that is absent keeps the value entered before
    when the result names no preset, and is cleared to the empty string
    when the result names a preset, because [loadPreset] clears the
    four inputs. *)
Theorem applyParsed_fields (p : Parsed.t) (st : State.t) :
  let st' := Part000.applyParsed (Some p) st in
  let kept (v : value) : value :=
    if namesPreset Part000.PRESETS p then VStr [] else v in
  (forall n, Parsed.G p = Some n -> State.G st' = VNum n)
  /\ (forall n, Parsed.big p = Some n -> State.big st' = VNum n)
  /\ (forall n, Parsed.reg p = Some n -> State.reg st' = VNum n)
  /\ (forall n, Parsed.diff p = Some n -> State.diff st' = VNum n)
  /\ (Parsed.G p = None -> State.G st' = kept (State.G st))
  /\ (Parsed.big p = None -> State.big st' = kept (State.big st))
  /\ (Parsed.reg p = None -> State.reg st' = kept (State.reg st))
  /\ (Parsed.diff p = None -> State.diff st' = kept (State.diff st)).
Proof.
  destruct p as [mk g b r d], st as [k0 G0 B0 R0 D0 rp ch be pi ba ra cp bp pp].
  unfold namesPreset, Part000.applyParsed, Part000.loadPreset.
  cbn [Parsed.modelKey Parsed.G Parsed.big Parsed.reg Parsed.diff].
  destruct mk as [[|x key]|];
    [| destruct (lookup (x :: key) Part000.PRESETS) as [np|] |];
    destruct g, b, r, d; state_fields; repeat split; intros; congruence.
Qed.

Lemma applyParsed_fields_witness :
  State.big (Part000.applyParsed
               (Some (Parsed.mk None (Some (ofZ 3200)) None None None))
               Examples.scenario)
  = State.big Examples.scenario.
Proof.
  apply (proj1 (proj2 (proj2 (proj2 (proj2 (proj2
           (applyParsed_fields
              (Parsed.mk None (Some (ofZ 3200)) None None None)
              Examples.scenario))))))).
  reflexivity.
Defined.

Lemma findModel_in (keys : list jsstring) (text key : jsstring) :
  Part000.findModel keys text = Some key -> In key keys.
Proof.
  induction keys as [|k keys IH]; [discriminate|].
  cbn [Part000.findModel].
  destruct (includes _ _); [intros [= <-]; now left | right; auto].
Qed.

(** A model name found by [parseFromText] is a key of [PRESETS]: the
    result names a preset as soon as it has a model name. *)
Lemma parsed_model_names_preset (raw : jsstring) (p : Parsed.t) :
  Part000.parseFromText raw = Some p ->
  Parsed.modelKey p <> None -> namesPreset Part000.PRESETS p = true.
Proof.
  intros Hp Hk.
  assert (E : Parsed.modelKey p
              = Part000.findModel (map fst Part000.PRESETS)
                                  (Part000.normalize raw)).
  { assert (Ep : p = Parsed.mk
                       (Part000.findModel (map fst Part000.PRESETS)
                                          (Part000.normalize raw))
                       (Part000.extractG (Part000.normalize raw))
                       (Part000.extractBig (Part000.normalize raw))
                       (Part000.extractReg (Part000.normalize raw))
                       (Part000.extractDiff (Part000.normalize raw))).
    { revert Hp. unfold Part000.parseFromText.
      destruct raw as [|x raw]; [discriminate|].
      destruct (Part000.extractG _), (Part000.extractBig _),
        (Part000.extractReg _), (Part000.extractDiff _); congruence. }
    rewrite Ep. reflexivity. }
  unfold namesPreset.
  destruct (Parsed.modelKey p) as [key|]; [clear Hk | congruence].
  symmetry in E. apply findModel_in in E.
  unfold Part000.PRESETS in E. cbn [map fst In] in E.
  destruct E as [<-|[<-|[<-|[<-|[<-|[<-|[]]]]]]]; vm_compute; reflexivity.
Qed.

(** In [src/src/App.tsx], where [loadPreset] clears nothing, an absent
    field always keeps the value entered before. *)
Lemma applyParsed_frame_AppTsx (p : Parsed.t) (st : State.t) :
  let st' := AppTsx.applyParsed (Some p) st in
  (Parsed.G p = None -> State.G st' = State.G st)
  /\ (Parsed.big p = None -> State.big st' = State.big st)
  /\ (Parsed.reg p = None -> State.reg st' = State.reg st)
  /\ (Parsed.diff p = None -> State.diff st' = State.diff st).
Proof.
  destruct p as [mk g b r d], st as [k0 G0 B0 R0 D0 rp ch be pi ba ra cp bp pp].
  unfold AppTsx.applyParsed, AppTsx.loadPreset.
  cbn [Parsed.modelKey Parsed.G Parsed.big Parsed.reg Parsed.diff].
  destruct mk as [[|x key]|];
    [| destruct (lookup (x :: key) AppTsx.PRESETS) as [np|] |];
    destruct g, b, r, d; state_fields; repeat split; intros; congruence.
Qed.

End Merge.


(* ================================================================== *)
(** * Normalisation *)
(* ================================================================== *)

Module NormalFacts.
Import Normal.

Lemma consumed_one (x : Z) (s : jsstring) : consumed (x :: s) s = [x].
Proof. apply (RegexFacts.consumed_app [x] s). Qed.

(** A global replace of a one-character class works on each code unit
    on its own. *)
Lemma replaceAll_cls (cs : charset) (f : jsstring -> jsstring) (s : jsstring) :
  replaceAll (Cls cs) f s
  = flat_map (fun x => if in_set cs x then f [x] else [x]) s.
Proof.
  unfold replaceAll. induction s as [|x s IH]; [reflexivity|].
  cbn [replace_from flat_map]. unfold match_at. cbn [rmatch].
  destruct (in_set cs x).
  - rewrite consumed_one. cbn [List.length Nat.sub]. rewrite IH.
    reflexivity.
  - rewrite IH. reflexivity.
Qed.

Lemma replaceAll_subst (cs : charset) (y : Z) (s : jsstring) :
  replaceAll (Cls cs) (fun _ => [y]) s = map (subst cs y) s.
Proof.
  rewrite replaceAll_cls. induction s as [|x s IH]; [reflexivity|].
  cbn [flat_map map]. rewrite IH. unfold subst.
  destruct (in_set cs x); reflexivity.
Qed.

Lemma replaceAll_delete (cs : charset) (s : jsstring) :
  replaceAll (Cls cs) (fun _ => []) s
  = filter (fun x => negb (in_set cs x)) s.
Proof.
  rewrite replaceAll_cls. induction s as [|x s IH]; [reflexivity|].
  cbn [flat_map filter]. rewrite IH.
  destruct (in_set cs x); reflexivity.
Qed.

Lemma replaceAll_halfwidth (s : jsstring) :
  replaceAll (Cls fullwidthDigit)
             (fun d => fromCharCode (charCodeAt0 d - 0xFF10 + 0x30)) s
  = map halfwidth s.
Proof.
  rewrite replaceAll_cls. induction s as [|x s IH]; [reflexivity|].
  cbn [flat_map map]. rewrite IH. unfold halfwidth.
  destruct (in_set fullwidthDigit x) eqn:E; [|reflexivity].
  unfold fromCharCode, charCodeAt0. cbn [hd app].
  rewrite Z.mod_small; [reflexivity|].
  unfold fullwidthDigit in E. cbn [in_set] in E. unfold between in E. lia.
Qed.

(** The greedy loop of [cs+] and [cs*] takes the whole run. *)
Lemma rep_loop_cls (cs : charset) (lo : nat) :
  forall fuel s cnt c,
    (List.length s <= fuel)%nat -> (lo <= cnt)%nat ->
    rep_loop (rmatch (Cls cs)) lo None (fun s1 c1 => Some (s1, c1))
             fuel cnt s c
    = Some (dropWhile (in_set cs) s, c).
Proof.
  induction fuel as [|fuel IH]; intros s cnt c Hf Hc.
  - destruct s; [|simpl in Hf; lia]. simpl.
    apply Nat.leb_le in Hc. rewrite Hc. reflexivity.
  - cbn [rep_loop below rmatch].
    assert (Hc' := Hc). apply Nat.leb_le in Hc'. rewrite Hc'.
    destruct s as [|x s]; [reflexivity|].
    cbn [dropWhile]. destruct (in_set cs x); [|reflexivity].
    assert (L : Nat.ltb (List.length s) (List.length (x :: s)) = true).
    { apply Nat.ltb_lt. simpl. lia. }
    rewrite L. cbn [orb]. rewrite IH; [reflexivity | simpl in Hf; lia | lia].
Qed.

Lemma rmatch_rep (r : regex) (lo : nat) (hi : option nat) s c k :
  rmatch (Rep r lo hi) s c k
  = rep_loop (rmatch r) lo hi k (List.length s + lo) 0 s c.
Proof. reflexivity. Qed.

Lemma rmatch_cls_cons (cs : charset) x s c k :
  rmatch (Cls cs) (x :: s) c k = if in_set cs x then k s c else None.
Proof. reflexivity. Qed.

Lemma rmatch_cls_nil (cs : charset) c k : rmatch (Cls cs) [] c k = None.
Proof. reflexivity. Qed.

Lemma rep_loop_S m lo hi k fuel cnt s c :
  rep_loop m lo hi k (S fuel) cnt s c
  = let stop := if Nat.leb lo cnt then k s c else None in
    if below cnt hi then
      match m s c (fun s1 c1 =>
                     if Nat.ltb (List.length s1) (List.length s)
                        || Nat.ltb cnt lo
                     then rep_loop m lo hi k fuel (S cnt) s1 c1
                     else None) with
      | Some a => Some a
      | None => stop
      end
    else stop.
Proof. reflexivity. Qed.

Lemma match_at_plus (cs : charset) (s : jsstring) :
  match_at (Plus (Cls cs)) s
  = match s with
    | x :: s' =>
        if in_set cs x then Some (dropWhile (in_set cs) s', []) else None
    | [] => None
    end.
Proof.
  unfold match_at, Plus. rewrite rmatch_rep, Nat.add_1_r, rep_loop_S.
  cbv zeta. cbn [below Nat.leb].
  destruct s as [|x s]; [rewrite rmatch_cls_nil; reflexivity|].
  rewrite rmatch_cls_cons.
  destruct (in_set cs x); [|reflexivity].
  cbn [Nat.ltb Nat.leb orb]. rewrite orb_true_r.
  rewrite rep_loop_cls; [reflexivity | simpl; lia | lia].
Qed.

Lemma take_drop (p : Z -> bool) (s : jsstring) :
  s = takeWhile p s ++ dropWhile p s.
Proof.
  induction s as [|x s IH]; [reflexivity|]. simpl.
  destruct (p x); [|reflexivity]. simpl. now rewrite <- IH.
Qed.

Lemma skipn_takeWhile (p : Z -> bool) (s : jsstring) :
  skipn (List.length (takeWhile p s)) s = dropWhile p s.
Proof.
  induction s as [|x s IH]; [reflexivity|]. simpl.
  destruct (p x); [|reflexivity]. simpl. exact IH.
Qed.

Lemma dropWhile_length (p : Z -> bool) (s : jsstring) :
  (List.length (dropWhile p s) <= List.length s)%nat.
Proof.
  induction s as [|x s IH]; [simpl; lia|]. simpl.
  destruct (p x); simpl; lia.
Qed.

Lemma replace_from_skip (r : regex) (f : jsstring -> jsstring) :
  forall n s, replace_from r f n s = replace_from r f 0 (skipn n s).
Proof.
  induction n as [|n IH]; intros s; [reflexivity|].
  destruct s as [|x s]; [reflexivity|]. cbn [replace_from skipn]. apply IH.
Qed.

Lemma squeeze_in_run (cs : charset) (rep : jsstring) (s : jsstring) :
  squeeze cs rep true s = squeeze cs rep false (dropWhile (in_set cs) s).
Proof.
  induction s as [|x s IH]; [reflexivity|]. cbn [squeeze dropWhile].
  destruct (in_set cs x) eqn:E.
  - exact IH.
  - cbn [squeeze]. rewrite E. reflexivity.
Qed.

(** A global replace of [cs+] by a constant squeezes the runs. *)
Lemma replaceAll_plus (cs : charset) (rep : jsstring) (s : jsstring) :
  replaceAll (Plus (Cls cs)) (fun _ => rep) s = squeeze cs rep false s.
Proof.
  unfold replaceAll.
  remember (List.length s) as n eqn:Hn.
  assert (Hle : (List.length s <= n)%nat) by lia. clear Hn.
  revert s Hle. induction n as [|n IH]; intros s Hle.
  - destruct s; [reflexivity | simpl in Hle; lia].
  - destruct s as [|x s]; [reflexivity|].
    cbn [replace_from squeeze]. rewrite match_at_plus.
    destruct (in_set cs x) eqn:E.
    + replace (consumed (x :: s) (dropWhile (in_set cs) s))
        with (x :: takeWhile (in_set cs) s).
      * cbn [List.length Nat.sub]. rewrite Nat.sub_0_r.
        rewrite replace_from_skip, skipn_takeWhile, squeeze_in_run.
        rewrite IH; [reflexivity|].
        pose proof (dropWhile_length (in_set cs) s). simpl in Hle. lia.
      * rewrite (take_drop (in_set cs) s) at 2.
        change (x :: takeWhile (in_set cs) s ++ dropWhile (in_set cs) s)
          with ((x :: takeWhile (in_set cs) s) ++ dropWhile (in_set cs) s).
        now rewrite RegexFacts.consumed_app.
    + rewrite IH; [reflexivity | simpl in Hle; lia].
Qed.

(** ** One code unit *)

Ltac no_if t :=
  lazymatch t with
  | context [if _ then _ else _] => fail
  | _ => idtac
  end.

Ltac unit_cases :=
  unfold fold_unit, unwiden, halfwidth, subst, lower_unit, fullwidthDigit,
    blank;
  change (chars "＋") with [(0xFF0B, 0xFF0B)%Z];
  change (chars "－") with [(0xFF0D, 0xFF0D)%Z];
  change (chars "Ｇ") with [(0xFF27, 0xFF27)%Z];
  change (chars ",") with [(0x2C, 0x2C)%Z];
  cbn [in_set]; unfold between;
  repeat (match goal with
          | |- context [(?a <=? ?b)%Z] =>
              no_if a; no_if b; destruct (Z.leb_spec a b)
          | |- context [(?a =? ?b)%Z] =>
              no_if a; no_if b; destruct (Z.eqb_spec a b)
          end; cbn [andb orb negb]; try lia);
  try reflexivity; try lia.

Lemma halfwidth_not_fullwidth (x : Z) :
  in_set fullwidthDigit (halfwidth x) = false.
Proof. unit_cases. Qed.

Lemma halfwidth_id (x : Z) :
  in_set fullwidthDigit x = false -> halfwidth x = x.
Proof. unfold halfwidth. intros ->. reflexivity. Qed.

Lemma fold_unit_fullwidth (x : Z) :
  in_set fullwidthDigit (fold_unit x) = in_set fullwidthDigit x.
Proof. unit_cases. Qed.

Lemma fold_unit_blank (x : Z) :
  in_set blank (fold_unit x) = in_set blank x.
Proof. unit_cases. Qed.

Lemma fold_unit_space (x : Z) :
  (fold_unit x =? 0x20)%Z = (x =? 0x20)%Z.
Proof. unit_cases. Qed.

Lemma lower_unit_idem (x : Z) : lower_unit (lower_unit x) = lower_unit x.
Proof. unit_cases. Qed.

Lemma unwiden_lower_unit (x : Z) :
  x <> 0xFF0D%Z -> x <> 0xFF0B%Z -> unwiden (lower_unit x) = lower_unit x.
Proof. intros H1 H2. unit_cases. Qed.

Lemma unwiden_range (x : Z) :
  unwiden x <> 0xFF0D%Z /\ unwiden x <> 0xFF0B%Z.
Proof. split; unit_cases. Qed.

Lemma fold_unit_idem (x : Z) : fold_unit (fold_unit x) = fold_unit x.
Proof.
  unfold fold_unit. destruct (unwiden_range x) as [H1 H2].
  rewrite (unwiden_lower_unit H1 H2). apply lower_unit_idem.
Qed.

Lemma comma_blank (x : Z) :
  in_set (chars ",") x = true ->
  in_set blank x = true /\ (x =? 0x20)%Z = false.
Proof.
  change (chars ",") with [(0x2C, 0x2C)%Z]. unfold blank.
  cbn [in_set]. unfold between. intros H. split; lia.
Qed.

(** The normalisation, step by step. *)
Lemma normalize_steps (raw : jsstring) :
  AppTsx.normalize raw
  = map fold_unit
        (filter (fun x => negb (in_set (chars ",") x))
                (squeeze blank [0x20%Z] false (map halfwidth raw))).
Proof.
  unfold AppTsx.normalize, toLowerCase.
  rewrite replaceAll_halfwidth.
  change (js " ") with [0x20%Z].
  rewrite (replaceAll_plus blank [0x20%Z]).
  rewrite (replaceAll_delete (chars ",")).
  change (js "G") with [0x47%Z]. change (js "-") with [0x2D%Z].
  change (js "+") with [0x2B%Z].
  rewrite (replaceAll_subst (chars "Ｇ") 0x47).
  rewrite (replaceAll_subst (chars "－") 0x2D).
  rewrite (replaceAll_subst (chars "＋") 0x2B).
  rewrite !map_map. reflexivity.
Qed.

(** ** Tidy texts *)

Local Abbreviation squeezeBlank := (squeeze blank [0x20%Z]).
Local Abbreviation noComma := (filter (fun x => negb (in_set (chars ",") x))).
Local Abbreviation noFullwidth :=
  (Forall (fun x => in_set fullwidthDigit x = false)).

Lemma squeeze_tidy (s : jsstring) :
  forall b, tidy b (squeezeBlank b s) = true.
Proof.
  induction s as [|x s IH]; intros b; [reflexivity|].
  cbn [squeeze]. destruct (in_set blank x) eqn:E.
  - destruct b; cbn [app]; [apply IH|].
    cbn [tidy]. change (in_set blank 32) with true.
    rewrite IH. reflexivity.
  - cbn [tidy]. rewrite E. apply IH.
Qed.

Lemma tidy_squeeze (t : jsstring) :
  forall b, tidy b t = true -> squeezeBlank b t = t.
Proof.
  induction t as [|x t IH]; intros b H; [reflexivity|].
  cbn [tidy squeeze] in *. destruct (in_set blank x).
  - apply andb_true_iff in H. destruct H as [H Ht].
    apply andb_true_iff in H. destruct H as [Hx Hb].
    apply Z.eqb_eq in Hx. subst x.
    destruct b; [discriminate|]. cbn [app]. now rewrite IH.
  - now rewrite IH.
Qed.

Lemma tidy_no_comma (t : jsstring) :
  forall b, tidy b t = true -> noComma t = t.
Proof.
  induction t as [|x t IH]; intros b H; [reflexivity|].
  cbn [tidy filter] in *.
  destruct (in_set (chars ",") x) eqn:Ec.
  - apply comma_blank in Ec. destruct Ec as [Eb E32].
    rewrite Eb, E32 in H. discriminate.
  - cbn [negb]. destruct (in_set blank x).
    + apply andb_true_iff in H. destruct H as [_ Ht].
      now rewrite (IH true).
    + now rewrite (IH false).
Qed.

Lemma tidy_fold (t : jsstring) :
  forall b, tidy b t = true -> tidy b (map fold_unit t) = true.
Proof.
  induction t as [|x t IH]; intros b H; [reflexivity|].
  cbn [tidy map] in *. rewrite fold_unit_blank, fold_unit_space.
  destruct (in_set blank x).
  - apply andb_true_iff in H. destruct H as [H Ht].
    rewrite H. now apply IH.
  - now apply IH.
Qed.

Lemma squeeze_noFullwidth (s : jsstring) :
  forall b, noFullwidth s -> noFullwidth (squeezeBlank b s).
Proof.
  induction s as [|x s IH]; intros b H; [constructor|].
  inversion H as [|? ? Hx Hs]; subst. cbn [squeeze].
  destruct (in_set blank x).
  - destruct b; cbn [app]; [now apply IH|].
    constructor; [reflexivity | now apply IH].
  - constructor; [assumption | now apply IH].
Qed.

Lemma halfwidth_noFullwidth (s : jsstring) : noFullwidth (map halfwidth s).
Proof.
  induction s as [|x s IH]; constructor;
    [apply halfwidth_not_fullwidth | assumption].
Qed.

Lemma fold_noFullwidth (t : jsstring) :
  noFullwidth t -> noFullwidth (map fold_unit t).
Proof.
  induction 1 as [|x t Hx Ht IH]; constructor; [|assumption].
  now rewrite fold_unit_fullwidth.
Qed.

Lemma noFullwidth_halfwidth (t : jsstring) :
  noFullwidth t -> map halfwidth t = t.
Proof.
  induction 1 as [|x t Hx Ht IH]; [reflexivity|].
  cbn [map]. now rewrite IH, (halfwidth_id _ Hx).
Qed.

Lemma map_fold_idem (t : jsstring) :
  map fold_unit (map fold_unit t) = map fold_unit t.
Proof.
  rewrite map_map. apply map_ext. intros x. apply fold_unit_idem.
Qed.

End NormalFacts.

Section Normalisation.
Import Normal NormalFacts.


End Normalisation.

(* ================================================================== *)
(** * The two variants *)
(* ================================================================== *)

Section Variants.

Lemma strategies_agree : Part000.STRATEGIES = AppTsx.STRATEGIES.
Proof.
  unfold Part000.STRATEGIES, AppTsx.STRATEGIES.
  repeat f_equal; same_number.
Qed.

Lemma presets_agree : AppTsx.PRESETS = Part000.PRESETS.
Proof. reflexivity. Qed.

Lemma normalize_agree (raw : jsstring) :
  AppTsx.normalize raw = Part000.normalize raw.
Proof. reflexivity. Qed.

Lemma findModel_agree (keys : list jsstring) (text : jsstring) :
  AppTsx.findModel keys text = Part000.findModel keys text.
Proof. induction keys as [|key keys IH]; [reflexivity|]. simpl. now rewrite IH. Qed.

Lemma extract_agree :
  AppTsx.extractG = Part000.extractG
  /\ AppTsx.extractBig = Part000.extractBig
  /\ AppTsx.extractReg = Part000.extractReg
  /\ AppTsx.extractDiff = Part000.extractDiff.
Proof. repeat split; reflexivity. Qed.

(** C10.  The two variants have the same cores: [calcResultByCapture]
    returns the same result on every state and capture object,
    [resultsByStrategy] the same list, and [parseFromText] the same
    extraction result on every text. *)
Theorem variants_agree :
  (forall st capture,
      AppTsx.calcResultByCapture st capture
      = Part000.calcResultByCapture st capture)
  /\ (forall st, AppTsx.resultsByStrategy st = Part000.resultsByStrategy st)
  /\ (forall raw, AppTsx.parseFromText raw = Part000.parseFromText raw).
Proof.
  split; [|split].
  - reflexivity.
  - intros st. unfold AppTsx.resultsByStrategy, Part000.resultsByStrategy.
    rewrite strategies_agree. reflexivity.
  - intros raw. unfold AppTsx.parseFromText, Part000.parseFromText.
    rewrite normalize_agree, presets_agree, findModel_agree.
    destruct extract_agree as (-> & -> & -> & ->). reflexivity.
Qed.

End Variants.

(* ================================================================== *)
(** * More about the calculation engine *)
(* ================================================================== *)

Module OrderFacts.

Lemma qc_mul_nonneg (a b : Qc) : (0 <= a -> 0 <= b -> 0 <= a * b)%Qc.
Proof.
  intros Ha Hb. rewrite <- (Qcmult_0_l b). now apply Qcmult_le_compat_r.
Qed.

Lemma qc_mul_le_l (k a b : Qc) : (0 <= k -> a <= b -> k * a <= k * b)%Qc.
Proof.
  intros Hk H. rewrite (Qcmult_comm k a), (Qcmult_comm k b).
  now apply Qcmult_le_compat_r.
Qed.

Lemma qc_inv_pos (a : Qc) : (0 < a -> 0 < / a)%Qc.
Proof.
  unfold Qclt, Qcinv. intros H. change (0 < Qred (/ a))%Q.
  rewrite Qred_correct. apply Qinv_lt_0_compat. exact H.
Qed.

Lemma qc_div_nonneg (a b : Qc) : (0 <= a -> 0 < b -> 0 <= a / b)%Qc.
Proof.
  intros Ha Hb. unfold Qcdiv. apply qc_mul_nonneg; [assumption|].
  apply Qclt_le_weak. now apply qc_inv_pos.
Qed.

Lemma qc_sub_le (a b b' : Qc) : (b' <= b -> a - b <= a - b')%Qc.
Proof.
  intros H. unfold Qcminus. apply Qcplus_le_compat; [apply Qcle_refl|].
  now apply Qcopp_le_compat.
Qed.

Lemma qc_pos_nonzero (a : Qc) : (0 < a)%Qc -> a <> qzero.
Proof. intros H E. apply Qclt_not_eq in H. apply H. now rewrite E. Qed.

Lemma positive_inv (x : number) :
  positive x = true -> exists q, x = Fin q /\ (0 < q)%Qc.
Proof.
  destruct x; simpl; try discriminate. intros H. exists q.
  split; [reflexivity | now apply qltb_lt].
Qed.

Lemma nonneg_inv (x : number) :
  nonneg x = true -> exists q, x = Fin q /\ (0 <= q)%Qc.
Proof.
  destruct x; simpl; try discriminate. intros H. exists q.
  split; [reflexivity | now apply qleb_le].
Qed.

Lemma positive_finite_nonzero (x : number) :
  positive x = true -> finite_nonzero x = true.
Proof.
  intros H. apply positive_inv in H. destruct H as (q & -> & Hq).
  simpl. apply negb_true_iff, qeqb_neq. now apply qc_pos_nonzero.
Qed.

Lemma nonneg_finite (x : number) : nonneg x = true -> isFinite x = true.
Proof. destruct x; simpl; congruence. Qed.

Lemma premises_pos_ok (st : State.t) :
  premises_pos st = true -> premises_ok st = true.
Proof.
  unfold premises_pos, premises_ok. rewrite !andb_true_iff.
  intros [[[[[[[[H1 H2] H3] H4] H5] H6] H7] H8] H9].
  repeat split; auto using positive_finite_nonzero, nonneg_finite.
Qed.

End OrderFacts.

Section EngineMore.
Import AppTsx EngineFacts OrderFacts.

(** Under usable premises the result is read off [rawQ]. *)
Lemma result_rawQ (st : State.t) (c : Capture.t) :
  premises_ok st = true -> capture_ok c = true ->
  let g := qv (numberOr (State.G st) zero) in
  let x := rawQ g (qv (numberOr (State.big st) zero))
                (qv (numberOr (State.reg st) zero))
                (qv (numberOr (State.diff st) zero)) st c in
  Result.grapesCount (calcResultByCapture st c) = max zero (Fin x)
  /\ Result.grapeProb (calcResultByCapture st c)
     = (if qltb qzero x then Fin (g / x)%Qc else Infinity).
Proof.
  intros Hp Hc. rewrite calc_reconcile.
  destruct (numberOr_finite (State.G st)) as [g ->].
  destruct (numberOr_finite (State.big st)) as [b ->].
  destruct (numberOr_finite (State.reg st)) as [r ->].
  destruct (numberOr_finite (State.diff st)) as [d ->].
  cbn [qv]. unfold Spec.reconcile. cbn [Result.grapesCount Result.grapeProb].
  rewrite (@raw_fin st c g b r d Hp Hc).
  split; [reflexivity|].
  rewrite max_zero_fin.
  destruct (qltb qzero (rawQ g b r d st c)) eqn:E.
  - change (gtb (Fin (rawQ g b r d st c)) zero)
      with (qltb qzero (rawQ g b r d st c)).
    rewrite E. apply div_fin. apply qc_pos_nonzero. now apply qltb_lt.
  - reflexivity.
Qed.

Lemma rawQ_antitone_capture (st : State.t) (c1 c2 : Capture.t) (g b r d : Qc) :
  premises_pos st = true -> capture_ok c1 = true -> capture_ok c2 = true ->
  (0 <= g)%Qc ->
  le (Capture.cherry c1) (Capture.cherry c2) ->
  le (Capture.bell c1) (Capture.bell c2) ->
  le (Capture.piero c1) (Capture.piero c2) ->
  (rawQ g b r d st c2 <= rawQ g b r d st c1)%Qc.
Proof.
  destruct st as [mk G0 B0 R0 D0 rp ch be pi ba ra cp bp pp].
  destruct c1 as [x1 y1 z1], c2 as [x2 y2 z2].
  unfold premises_pos, capture_ok, rawQ;
    cbn [State.replay State.cherry State.bell
    State.piero State.bigAvg State.regAvg State.cherryPay State.bellPay
    State.pieroPay Capture.cherry Capture.bell Capture.piero].
  rewrite !andb_true_iff.
  intros [[[[[[[[H1 H2] H3] H4] H5] H6] H7] H8] H9] [[K1 K2] K3]
         [[L1 L2] L3] Hg Hx Hy Hz.
  apply positive_inv in H1, H2, H3, H4.
  apply nonneg_inv in H5, H6, H7, H8, H9.
  apply isFinite_inv in K1, K2, K3, L1, L2, L3.
  destruct H1 as (q1 & -> & N1), H2 as (q2 & -> & N2),
    H3 as (q3 & -> & N3), H4 as (q4 & -> & N4).
  destruct H5 as (q5 & -> & N5), H6 as (q6 & -> & N6),
    H7 as (q7 & -> & N7), H8 as (q8 & -> & N8), H9 as (q9 & -> & N9).
  destruct K1 as (a1 & ->), K2 as (a2 & ->), K3 as (a3 & ->),
    L1 as (e1 & ->), L2 as (e2 & ->), L3 as (e3 & ->).
  apply qleb_le in Hx, Hy, Hz. cbn [qv].
  apply div8_mono, qc_sub_le.
  apply Qcplus_le_compat; [apply Qcle_refl|].
  repeat apply Qcplus_le_compat;
    apply qc_mul_le_l; try assumption;
    apply qc_mul_nonneg; try assumption; now apply qc_div_nonneg.
Qed.



Lemma presets_positive (key : jsstring) (np : Preset.t)
      (G big reg diff : value) :
  In (key, np) PRESETS -> premises_pos (session key np G big reg diff) = true.
Proof.
  unfold PRESETS. cbn [In].
  intros [H|[H|[H|[H|[H|[H|[]]]]]]]; injection H as <- <-;
    vm_compute; reflexivity.
Qed.



Lemma rawQ_antitone_jackpots (st : State.t) (c : Capture.t)
      (g b1 b2 r1 r2 d : Qc) :
  premises_pos st = true ->
  (b1 <= b2)%Qc -> (r1 <= r2)%Qc ->
  (rawQ g b2 r2 d st c <= rawQ g b1 r1 d st c)%Qc.
Proof.
  destruct st as [mk G0 B0 R0 D0 rp ch be pi ba ra cp bp pp].
  unfold premises_pos, rawQ;
    cbn [State.replay State.cherry State.bell
    State.piero State.bigAvg State.regAvg State.cherryPay State.bellPay
    State.pieroPay].
  rewrite !andb_true_iff.
  intros [[[[[[[[H1 H2] H3] H4] H5] H6] H7] H8] H9] Hb Hr.
  apply nonneg_inv in H5, H6.
  destruct H5 as (q5 & -> & N5), H6 as (q6 & -> & N6). cbn [qv].
  apply div8_mono, qc_sub_le.
  apply Qcplus_le_compat; [|apply Qcle_refl].
  apply Qcplus_le_compat; now apply Qcmult_le_compat_r.
Qed.



(** With the exact numbers of the model and usable premises, when
    grapesCount is positive the probability is its inverse rate:
    grapeProb times grapesCount gives back the spin count G. *)
Theorem prob_times_count (st : State.t) (c : Capture.t) :
  premises_ok st = true -> capture_ok c = true ->
  gtb (Result.grapesCount (calcResultByCapture st c)) zero = true ->
  (Result.grapeProb (calcResultByCapture st c)
   * Result.grapesCount (calcResultByCapture st c))%js
  = numberOr (State.G st) zero.
Proof.
  intros Hp Hc. destruct (result_rawQ st c Hp Hc) as [-> ->].
  destruct (numberOr_finite (State.G st)) as [g ->]. cbn [qv].
  set (x := rawQ _ _ _ _ st c). rewrite max_zero_fin.
  destruct (qltb qzero x) eqn:E.
  - intros _. cbn [mul]. f_equal.
    apply qltb_lt, qc_pos_nonzero in E. field. exact E.
  - intros H. discriminate H.
Qed.

Lemma prob_times_count_witness :
  (Result.grapeProb (calcResultByCapture Examples.scenario Examples.random)
   * Result.grapesCount
       (calcResultByCapture Examples.scenario Examples.random))%js
  = numberOr (State.G Examples.scenario) zero.
Proof.
  apply (@prob_times_count Examples.scenario Examples.random);
    vm_compute; reflexivity.
Defined.

(** Under usable premises, when grapesCount is positive the coin
    balance closes: the difference plus the coins wagered, less the
    known payouts, is 8 coins for each grape,
    [D + coinIn - outKnown = 8 * grapesCount]. *)
Theorem balance_closes (st : State.t) (c : Capture.t) :
  premises_ok st = true -> capture_ok c = true ->
  gtb (Result.grapesCount (calcResultByCapture st c)) zero = true ->
  let G := numberOr (State.G st) zero in
  let B := numberOr (State.big st) zero in
  let R := numberOr (State.reg st) zero in
  let D := numberOr (State.diff st) zero in
  (D + Spec.coinIn G (State.replay st) - Spec.outKnown G B R st c)%js
  = (ofZ 8 * Result.grapesCount (calcResultByCapture st c))%js.
Proof.
  intros Hp Hc. destruct (result_rawQ st c Hp Hc) as [-> _].
  destruct (numberOr_finite (State.G st)) as [g ->].
  destruct (numberOr_finite (State.big st)) as [b ->].
  destruct (numberOr_finite (State.reg st)) as [r ->].
  destruct (numberOr_finite (State.diff st)) as [d ->]. cbn [qv].
  pose proof (@raw_fin st c g b r d Hp Hc) as E.
  unfold Spec.grapesCountRaw in E.
  rewrite max_zero_fin.
  destruct (qltb qzero (rawQ g b r d st c)); [|intros H; discriminate H].
  intros _. cbv zeta.
  destruct (Fin d + Spec.coinIn (Fin g) (State.replay st)
            - Spec.outKnown (Fin g) (Fin b) (Fin r) st c)%js
    as [|sg|n]; try (unfold ofZ in E; cbn [div] in E; discriminate E).
  unfold ofZ in *. rewrite div_fin in E by apply eight_nonzero.
  apply Fin_inj in E. rewrite <- E. cbn [mul]. f_equal.
  field. apply eight_nonzero.
Qed.

Lemma balance_closes_witness :
  let st := Examples.scenario in
  let c := Examples.random in
  let G := numberOr (State.G st) zero in
  let B := numberOr (State.big st) zero in
  let R := numberOr (State.reg st) zero in
  let D := numberOr (State.diff st) zero in
  (D + Spec.coinIn G (State.replay st) - Spec.outKnown G B R st c)%js
  = (ofZ 8 * Result.grapesCount (calcResultByCapture st c))%js.
Proof.
  apply (@balance_closes Examples.scenario Examples.random);
    vm_compute; reflexivity.
Defined.

Lemma rawQ_scale (st : State.t) (c : Capture.t) (k g b r d : Qc) :
  premises_ok st = true ->
  rawQ (k * g) (k * b) (k * r) (k * d) st c = (k * rawQ g b r d st c)%Qc.
Proof.
  destruct st as [mk G0 B0 R0 D0 rp ch be pi ba ra cp bp pp].
  unfold premises_ok, rawQ;
    cbn [State.replay State.cherry State.bell
    State.piero State.bigAvg State.regAvg State.cherryPay State.bellPay
    State.pieroPay].
  rewrite !andb_true_iff.
  intros [[[[[[[[H1 H2] H3] H4] _] _] _] _] _].
  apply finite_nonzero_inv in H1, H2, H3, H4.
  destruct H1 as (q1 & -> & N1), H2 as (q2 & -> & N2),
    H3 as (q3 & -> & N3), H4 as (q4 & -> & N4).
  cbn [qv]. field. repeat split; try assumption. apply eight_nonzero.
Qed.

(** With the exact numbers of the model and usable premises the
    result is homogeneous: multiplying
    the four inputs by the same positive factor multiplies grapesCount
    by that factor and leaves grapeProb unchanged. *)
Theorem scale_invariance
        (st : State.t) (c : Capture.t) (k g b r d : Qc) :
  premises_ok st = true -> capture_ok c = true -> (0 < k)%Qc ->
  let res := calcResultByCapture
               (withInputs st (Fin g) (Fin b) (Fin r) (Fin d)) c in
  let res' := calcResultByCapture
                (withInputs st (Fin (k * g)) (Fin (k * b))
                            (Fin (k * r)) (Fin (k * d))) c in
  Result.grapesCount res' = (Fin k * Result.grapesCount res)%js
  /\ Result.grapeProb res' = Result.grapeProb res.
Proof.
  intros Hp Hc Hk. cbv zeta.
  destruct st as [mk G0 B0 R0 D0 rp ch be pi ba ra cp bp pp].
  unfold withInputs, State.setDiff, State.setReg, State.setBig, State.setG;
    cbn [State.G State.big State.reg State.diff State.modelKey
         State.replay State.cherry State.bell
         State.piero State.bigAvg State.regAvg State.cherryPay State.bellPay
         State.pieroPay].
  match goal with
  | |- Result.grapesCount (calcResultByCapture ?s2 _) = _ /\ _ =>
      assert (P2 : premises_ok s2 = true) by exact Hp;
      destruct (result_rawQ s2 c P2 Hc) as [-> ->]
  end.
  match goal with
  | |- _ = (_ * Result.grapesCount (calcResultByCapture ?s1 _))%js /\ _ =>
      assert (P1 : premises_ok s1 = true) by exact Hp;
      destruct (result_rawQ s1 c P1 Hc) as [-> ->]
  end.
  cbn [State.G State.big State.reg State.diff]. rewrite !numberOr_num.
  cbn [qv].
  set (s0 := State.mk mk G0 B0 R0 D0 rp ch be pi ba ra cp bp pp).
  assert (E : forall g' b' r' d' G' B' R' D',
             rawQ g' b' r' d'
                  (State.mk mk G' B' R' D' rp ch be pi ba ra cp bp pp) c
             = rawQ g' b' r' d' s0 c) by reflexivity.
  rewrite !E. rewrite (@rawQ_scale s0 c k g b r d Hp).
  set (x := rawQ g b r d s0 c). rewrite !max_zero_fin.
  destruct (qltb qzero x) eqn:Ex.
  - assert (Ekx : qltb qzero (k * x) = true).
    { apply qltb_lt. apply qltb_lt in Ex.
      pose proof (Qcmult_lt_compat_r 0 k x Ex Hk) as H.
      rewrite Qcmult_0_l in H. exact H. }
    rewrite Ekx. split; [reflexivity|]. f_equal.
    apply qltb_lt, qc_pos_nonzero in Ex. apply qc_pos_nonzero in Hk.
    field. split; assumption.
  - assert (Ekx : qltb qzero (k * x) = false).
    { apply qltb_ge. apply qltb_ge in Ex.
      apply Qcle_trans with (k * 0)%Qc.
      - apply qc_mul_le_l; [now apply Qclt_le_weak | exact Ex].
      - rewrite Qcmult_0_r. apply Qcle_refl. }
    rewrite Ekx. split; [|reflexivity].
    unfold zero, ofZ. cbn [mul]. f_equal.
    change (Q2Qc (inject_Z 0)) with 0%Qc. now rewrite Qcmult_0_r.
Qed.

Lemma scale_invariance_witness :
  let st := Examples.scenario in
  let c := Examples.random in
  let res := calcResultByCapture
               (withInputs st (Fin (Q2Qc 3000)) (Fin (Q2Qc 10))
                           (Fin (Q2Qc 10)) (Fin (Q2Qc 0))) c in
  let res' := calcResultByCapture
                (withInputs st (Fin (Q2Qc 2 * Q2Qc 3000))
                            (Fin (Q2Qc 2 * Q2Qc 10))
                            (Fin (Q2Qc 2 * Q2Qc 10))
                            (Fin (Q2Qc 2 * Q2Qc 0))) c in
  Result.grapesCount res' = (Fin (Q2Qc 2) * Result.grapesCount res)%js
  /\ Result.grapeProb res' = Result.grapeProb res.
Proof.
  apply (@scale_invariance Examples.scenario Examples.random (Q2Qc 2));
    vm_compute; reflexivity.
Defined.

Lemma rawQ_zero (st : State.t) (c : Capture.t) :
  premises_ok st = true -> rawQ 0 0 0 0 st c = 0%Qc.
Proof.
  destruct st as [mk G0 B0 R0 D0 rp ch be pi ba ra cp bp pp].
  unfold premises_ok, rawQ;
    cbn [State.replay State.cherry State.bell
    State.piero State.bigAvg State.regAvg State.cherryPay State.bellPay
    State.pieroPay].
  rewrite !andb_true_iff.
  intros [[[[[[[[H1 H2] H3] H4] _] _] _] _] _].
  apply finite_nonzero_inv in H1, H2, H3, H4.
  destruct H1 as (q1 & -> & N1), H2 as (q2 & -> & N2),
    H3 as (q3 & -> & N3), H4 as (q4 & -> & N4).
  cbn [qv]. field. repeat split; try assumption. apply eight_nonzero.
Qed.

Lemma empty_inputs_result (st : State.t) (c : Capture.t) :
  premises_ok st = true -> capture_ok c = true ->
  State.G st = VStr [] -> State.big st = VStr [] ->
  State.reg st = VStr [] -> State.diff st = VStr [] ->
  calcResultByCapture st c = Result.mk zero Infinity.
Proof.
  intros Hp Hc HG HB HR HD.
  destruct (result_rawQ st c Hp Hc) as [E1 E2].
  rewrite HG, HB, HR, HD in E1, E2.
  change (qv (numberOr (VStr []) zero)) with 0%Qc in E1, E2.
  rewrite (rawQ_zero st c Hp) in E1, E2.
  destruct (calcResultByCapture st c) as [n q].
  cbn [Result.grapesCount Result.grapeProb] in E1, E2. subst n q.
  reflexivity.
Qed.

Lemma lookup_in (A : Type) (key : jsstring) (tbl : list (jsstring * A)) (v : A) :
  lookup key tbl = Some v -> In (key, v) tbl.
Proof.
  induction tbl as [|[k a] tbl IH]; [discriminate|]. cbn [lookup].
  destruct (list_eq_dec Z.eq_dec k key) as [->|_].
  - intros [= ->]. now left.
  - intros H. right. now apply IH.
Qed.

Lemma loadPreset_some (key : jsstring) (st st' : State.t) :
  Part000.loadPreset key st = Some st' ->
  exists np,
    lookup key Part000.PRESETS = Some np
    /\ st' = State.setDiff (VStr [])
               (State.setReg (VStr [])
                  (State.setBig (VStr [])
                     (State.setG (VStr [])
                        (State.setPremises np (State.setModelKey key st))))).
Proof.
  unfold Part000.loadPreset.
  destruct (lookup key Part000.PRESETS) as [np|]; [|discriminate].
  intros [= <-]. exists np. split; reflexivity.
Qed.

Lemma lookup_preset (key : jsstring) (np : Preset.t) :
  lookup key Part000.PRESETS = Some np -> In (key, np) PRESETS.
Proof.
  intros E. apply lookup_in in E. rewrite <- presets_agree in E. exact E.
Qed.

Lemma strategy_capture_ok (s : Strategy.t) :
  In s Part000.STRATEGIES -> capture_ok (Strategy.capture s) = true.
Proof.
  intros Hs. rewrite strategies_agree in Hs. now apply strategies_usable.
Qed.

Lemma cleared_preset_result
      (key : jsstring) (np : Preset.t) (st : State.t) (c : Capture.t) :
  In (key, np) PRESETS -> capture_ok c = true ->
  calcResultByCapture
    (State.setDiff (VStr [])
       (State.setReg (VStr [])
          (State.setBig (VStr [])
             (State.setG (VStr [])
                (State.setPremises np (State.setModelKey key st)))))) c
  = Result.mk zero Infinity.
Proof.
  intros E Hc.
  destruct st as [mk G0 B0 R0 D0 rp ch be pi ba ra cp bp pp].
  apply empty_inputs_result; try reflexivity.
  - exact (presets_usable (VStr []) (VStr []) (VStr []) (VStr []) E).
  - exact Hc.
Qed.

(** X4.  In [part_000] the reset button and a preset switch leave every
    strategy without a result: after [handleReset] on usable premises,
    and after [loadPreset] of any key of the table, the grape count is 0
    and the probability is infinite for every strategy. *)
Theorem cleared_inputs_show_nothing :
  (forall st c,
      premises_ok st = true -> capture_ok c = true ->
      Part000.calcResultByCapture (Part000.handleReset st) c
      = Result.mk zero Infinity)
  /\ (forall key st st' s,
        Part000.loadPreset key st = Some st' ->
        In s Part000.STRATEGIES ->
        Part000.calcResultByCapture st' (Strategy.capture s)
        = Result.mk zero Infinity).
Proof.
  split.
  - intros st c Hp Hc.
    change (Part000.calcResultByCapture (Part000.handleReset st) c)
      with (calcResultByCapture (Part000.handleReset st) c).
    destruct st as [mk G0 B0 R0 D0 rp ch be pi ba ra cp bp pp].
    apply empty_inputs_result; try reflexivity; assumption.
  - intros key st st' s Hl Hs.
    change (Part000.calcResultByCapture st' (Strategy.capture s))
      with (calcResultByCapture st' (Strategy.capture s)).
    apply loadPreset_some in Hl. destruct Hl as (np & E & ->).
    apply cleared_preset_result.
    + now apply lookup_preset.
    + now apply strategy_capture_ok.
Qed.

End EngineMore.

(* ================================================================== *)
(** * Digits, and the input fields *)
(* ================================================================== *)

Module DigitFacts.

Lemma is_digit_range (x : Z) : is_digit x = true <-> (0x30 <= x <= 0x39)%Z.
Proof.
  unfold is_digit, digit. cbn [in_set]. unfold between. lia.
Qed.

Lemma digit_not_space (x : Z) : is_digit x = true -> is_space x = false.
Proof.
  rewrite is_digit_range. unfold is_space, space. cbn [in_set].
  unfold between. lia.
Qed.

Lemma split_sign_other (x : Z) (r : jsstring) :
  x <> 0x2B%Z -> x <> 0x2D%Z -> split_sign (x :: r) = (false, x :: r).
Proof.
  intros H1 H2. unfold split_sign.
  destruct x as [|p|p]; try reflexivity.
  do 6 (destruct p as [p|p|]; try reflexivity); congruence.
Qed.

Lemma takeWhile_all (p : Z -> bool) (s : jsstring) :
  Forall (fun x => p x = true) s -> takeWhile p s = s.
Proof.
  induction 1 as [|x s Hx Hs IH]; [reflexivity|].
  simpl. now rewrite Hx, IH.
Qed.

Lemma dropWhile_all (p : Z -> bool) (s : jsstring) :
  Forall (fun x => p x = true) s -> dropWhile p s = [].
Proof.
  induction 1 as [|x s Hx Hs IH]; [reflexivity|].
  simpl. now rewrite Hx.
Qed.

(** Horner's rule stays between the bounds of its leading part. *)
Lemma digits_acc_bounds (ds : jsstring) :
  Forall (fun x => is_digit x = true) ds ->
  forall acc, (0 <= acc)%Z ->
    let v := fold_left (fun a d => a * 10 + (d - 0x30))%Z ds acc in
    (acc * 10 ^ Z.of_nat (List.length ds) <= v
     < (acc + 1) * 10 ^ Z.of_nat (List.length ds))%Z.
Proof.
  induction 1 as [|x ds Hx Hs IH]; intros acc Ha; cbv zeta.
  - simpl. lia.
  - cbn [fold_left List.length]. apply is_digit_range in Hx.
    rewrite Nat2Z.inj_succ, Z.pow_succ_r by lia.
    specialize (IH (acc * 10 + (x - 48))%Z ltac:(lia)). cbv zeta in IH.
    assert (0 < 10 ^ Z.of_nat (List.length ds))%Z
      by (apply Z.pow_pos_nonneg; lia).
    nia.
Qed.

Lemma digits_value_bounds (ds : jsstring) :
  Forall (fun x => is_digit x = true) ds ->
  (0 <= digits_value ds < 10 ^ Z.of_nat (List.length ds))%Z.
Proof.
  intros H. pose proof (@digits_acc_bounds ds H 0%Z ltac:(lia)) as B.
  cbv zeta in B. unfold digits_value. lia.
Qed.

Lemma parseFloat_digits (ds : jsstring) :
  ds <> [] -> Forall (fun x => is_digit x = true) ds ->
  parseFloat ds = ofZ (digits_value ds).
Proof.
  intros Hn Hd. destruct ds as [|x r]; [congruence|].
  inversion Hd as [|? ? Hx Hr]; subst.
  unfold parseFloat. cbn [dropWhile]. rewrite (digit_not_space x Hx).
  pose proof (proj1 (is_digit_range x) Hx) as Rx.
  rewrite split_sign_other by lia.
  assert (E : startsWith (js "Infinity") (x :: r) = false).
  { change (js "Infinity") with [73; 110; 102; 105; 110; 105; 116; 121]%Z.
    cbn [startsWith]. destruct (Z.eqb_spec 73 x); [lia | reflexivity]. }
  rewrite E, (@takeWhile_all is_digit _ Hd), (@dropWhile_all is_digit _ Hd).
  rewrite app_nil_r. cbn [List.length exponent_part Z.of_nat Z.sub].
  unfold scale10. cbn [Z.leb Z.compare Z.pow]. rewrite Z.mul_1_r.
  reflexivity.
Qed.

Lemma parseInt_digits (ds : jsstring) :
  ds <> [] -> Forall (fun x => is_digit x = true) ds ->
  parseInt ds = ofZ (digits_value ds).
Proof.
  intros Hn Hd. destruct ds as [|x r]; [congruence|].
  inversion Hd as [|? ? Hx Hr]; subst.
  unfold parseInt. cbn [dropWhile]. rewrite (digit_not_space x Hx).
  pose proof (proj1 (is_digit_range x) Hx) as Rx.
  rewrite split_sign_other by lia.
  rewrite (@takeWhile_all is_digit _ Hd). reflexivity.
Qed.

End DigitFacts.

Module FieldFacts.
Import NormalFacts DigitFacts.

Lemma notDigit_unit (x : Z) :
  is_unit x = true -> negb (in_set notDigit x) = is_digit x.
Proof.
  unfold is_unit, notDigit, is_digit, digit. cbn [in_set]. unfold between.
  intros H.
  lia.
Qed.

Lemma digit_passes (x : Z) :
  is_digit x = true -> negb (in_set notDigit x) = true.
Proof.
  unfold notDigit, is_digit, digit. cbn [in_set]. unfold between. lia.
Qed.

Lemma digit_not_comma (x : Z) :
  is_digit x = true -> negb (in_set (chars ",") x) = true.
Proof.
  change (chars ",") with [(0x2C, 0x2C)%Z].
  unfold is_digit, digit. cbn [in_set]. unfold between. lia.
Qed.

Lemma filter_all (p : Z -> bool) (s : jsstring) :
  Forall (fun x => p x = true) s -> filter p s = s.
Proof.
  induction 1 as [|x s Hx Hs IH]; [reflexivity|].
  simpl. now rewrite Hx, IH.
Qed.

Lemma Forall_firstn (P : Z -> Prop) (n : nat) (s : jsstring) :
  Forall P s -> Forall P (firstn n s).
Proof.
  intros H. revert n. induction H as [|x s Hx Hs IH]; intros [|n];
    simpl; auto.
Qed.

Lemma Forall_weaken (P Q : Z -> Prop) (s : jsstring) :
  (forall x, P x -> Q x) -> Forall P s -> Forall Q s.
Proof. intros H. induction 1; auto. Qed.

Lemma well_formed_units (s : jsstring) :
  well_formed s = true -> Forall (fun x => is_unit x = true) s.
Proof. unfold well_formed. rewrite forallb_forall, Forall_forall. auto. Qed.

(** Removing [[^\d]] leaves the digits of a well-formed text. *)
Lemma strip_notDigit (s : jsstring) :
  well_formed s = true ->
  Forall (fun x => is_digit x = true)
         (replaceAll (Cls notDigit) (fun _ => []) s).
Proof.
  intros H. apply well_formed_units in H. rewrite replaceAll_delete.
  induction H as [|x s Hx Hs IH]; [constructor|].
  cbn [filter]. rewrite (notDigit_unit x Hx).
  destruct (is_digit x) eqn:E; [constructor|]; assumption.
Qed.

Lemma strip_notDigit_id (v : jsstring) :
  Forall (fun x => is_digit x = true) v ->
  replaceAll (Cls notDigit) (fun _ => []) v = v.
Proof.
  intros H. rewrite replaceAll_delete. apply filter_all.
  eapply Forall_weaken; [|exact H]. apply digit_passes.
Qed.

(** A string of digits is read by [numberOr] as its value. *)
Lemma numberOr_digit_string (v : jsstring) (d : number) :
  v <> [] -> Forall (fun x => is_digit x = true) v ->
  AppTsx.numberOr (VStr v) d = ofZ (digits_value v).
Proof.
  intros Hn H. unfold AppTsx.numberOr, AppTsx.numberOr_n.
  rewrite (replaceAll_delete (chars ",")).
  rewrite filter_all
    by (eapply Forall_weaken; [|exact H]; apply digit_not_comma).
  rewrite (parseFloat_digits Hn H). reflexivity.
Qed.

Lemma numberOr_digits_or_empty (v : jsstring) :
  Forall (fun x => is_digit x = true) v ->
  AppTsx.numberOr (VStr v) zero = ofZ (digits_value v).
Proof.
  intros H. destruct v as [|x v]; [reflexivity|].
  apply numberOr_digit_string; [discriminate | assumption].
Qed.

Lemma pow10_mono (a b : nat) :
  (a <= b)%nat -> (10 ^ Z.of_nat a <= 10 ^ Z.of_nat b)%Z.
Proof. intros H. apply Z.pow_le_mono_r; lia. Qed.

(** What the two digit fields store, for a clip of [n] digits. *)
Lemma clipped_digits (n : nat) (s : jsstring) :
  well_formed s = true ->
  let v := slice0 n (replaceAll (Cls notDigit) (fun _ => []) s) in
  Forall (fun x => is_digit x = true) v
  /\ (List.length v <= n)%nat
  /\ slice0 n (replaceAll (Cls notDigit) (fun _ => []) v) = v
  /\ exists z, (0 <= z < 10 ^ Z.of_nat n)%Z
               /\ AppTsx.numberOr (VStr v) zero = ofZ z.
Proof.
  intros Hw v.
  assert (Hd : Forall (fun x => is_digit x = true) v)
    by (apply Forall_firstn, strip_notDigit, Hw).
  assert (Hl : (List.length v <= n)%nat) by apply firstn_le_length.
  repeat split; try assumption.
  - rewrite (strip_notDigit_id Hd). unfold slice0.
    now apply firstn_all2.
  - exists (digits_value v). split.
    + pose proof (digits_value_bounds Hd). pose proof (pow10_mono Hl). lia.
    + now apply numberOr_digits_or_empty.
Qed.

(** ** The signed field *)

Lemma is_sign_cases (x : Z) :
  is_sign x = true <-> x = 0x2B%Z \/ x = 0x2D%Z.
Proof.
  unfold is_sign. change (chars "+-") with [(0x2B, 0x2B); (0x2D, 0x2D)]%Z.
  cbn [in_set]. unfold between. lia.
Qed.

Lemma notDigitOrSign_unit (x : Z) :
  is_unit x = true ->
  negb (in_set notDigitOrSign x) = is_digit x || is_sign x.
Proof.
  unfold is_unit, notDigitOrSign, is_digit, digit, is_sign.
  change (chars "+-") with [(0x2B, 0x2B); (0x2D, 0x2D)]%Z.
  cbn [in_set]. unfold between. lia.
Qed.

Lemma digit_or_sign_passes (x : Z) :
  is_digit x || is_sign x = true -> negb (in_set notDigitOrSign x) = true.
Proof.
  unfold notDigitOrSign, is_digit, digit, is_sign.
  change (chars "+-") with [(0x2B, 0x2B); (0x2D, 0x2D)]%Z.
  cbn [in_set]. unfold between. lia.
Qed.

Lemma digit_not_sign (x : Z) : is_digit x = true -> negb (is_sign x) = true.
Proof.
  unfold is_digit, digit, is_sign.
  change (chars "+-") with [(0x2B, 0x2B); (0x2D, 0x2D)]%Z.
  cbn [in_set]. unfold between. lia.
Qed.

Lemma strip_notDigitOrSign (s : jsstring) :
  well_formed s = true ->
  Forall (fun x => is_digit x || is_sign x = true)
         (replaceAll (Cls notDigitOrSign) (fun _ => []) s).
Proof.
  intros H. apply well_formed_units in H. rewrite replaceAll_delete.
  induction H as [|x s Hx Hs IH]; [constructor|].
  cbn [filter]. rewrite (notDigitOrSign_unit x Hx).
  destruct (is_digit x || is_sign x) eqn:E; [constructor|]; assumption.
Qed.

Lemma strip_signs (raw : jsstring) :
  Forall (fun x => is_digit x || is_sign x = true) raw ->
  Forall (fun x => is_digit x = true)
         (replaceAll (Cls (chars "+-")) (fun _ => []) raw).
Proof.
  intros H. rewrite replaceAll_delete.
  induction H as [|x s Hx Hs IH]; [constructor|].
  cbn [filter]. fold (is_sign x).
  destruct (is_sign x) eqn:E; cbn [negb]; [assumption|].
  constructor; [|assumption]. cbv beta in Hx.
  apply orb_true_iff in Hx. destruct Hx as [Hx|Hx]; [exact Hx|].
  unfold is_sign in Hx. congruence.
Qed.

Lemma strip_signs_id (v : jsstring) :
  Forall (fun x => is_digit x = true) v ->
  replaceAll (Cls (chars "+-")) (fun _ => []) v = v.
Proof.
  intros H. rewrite replaceAll_delete. apply filter_all.
  eapply Forall_weaken; [|exact H]. apply digit_not_sign.
Qed.

Lemma startsWith_digit_no_sign (c : Z) (ds : jsstring) :
  is_sign c = true -> Forall (fun x => is_digit x = true) ds ->
  startsWith [c] ds = false.
Proof.
  intros Hc H. destruct H as [|x ds Hx Hs]; [reflexivity|].
  cbn [startsWith]. apply is_sign_cases in Hc. apply is_digit_range in Hx.
  destruct (Z.eqb_spec c x); [lia | reflexivity].
Qed.

Lemma parseFloat_signed (minus : bool) (ds : jsstring) :
  Forall (fun x => is_digit x = true) ds ->
  parseFloat ((if minus then 0x2D else 0x2B)%Z :: ds)
  = match ds with
    | [] => NaN
    | _ => ofZ (if minus then - digits_value ds else digits_value ds)
    end.
Proof.
  intros Hd. unfold parseFloat.
  assert (E0 : split_sign
                 (dropWhile is_space ((if minus then 0x2D else 0x2B)%Z :: ds))
               = (minus, ds)) by (destruct minus; reflexivity).
  rewrite E0.
  assert (E : startsWith (js "Infinity") ds = false).
  { change (js "Infinity") with [73; 110; 102; 105; 110; 105; 116; 121]%Z.
    destruct Hd as [|x ds Hx Hs]; [reflexivity|].
    cbn [startsWith]. apply is_digit_range in Hx.
    destruct (Z.eqb_spec 73 x); [lia | reflexivity]. }
  rewrite E, (@takeWhile_all is_digit _ Hd), (@dropWhile_all is_digit _ Hd).
  rewrite app_nil_r. destruct ds as [|x r]; [reflexivity|].
  cbn [List.length exponent_part Z.of_nat Z.sub].
  unfold scale10. cbn [Z.leb Z.compare Z.pow]. rewrite Z.mul_1_r.
  reflexivity.
Qed.

Lemma numberOr_signed (minus : bool) (ds : jsstring) :
  Forall (fun x => is_digit x = true) ds ->
  AppTsx.numberOr (VStr ((if minus then 0x2D else 0x2B)%Z :: ds)) zero
  = ofZ (if minus then - digits_value ds else digits_value ds).
Proof.
  intros H. unfold AppTsx.numberOr, AppTsx.numberOr_n.
  rewrite (replaceAll_delete (chars ",")).
  assert (F : filter (fun x => negb (in_set (chars ",") x))
                     ((if minus then 0x2D else 0x2B)%Z :: ds)
              = (if minus then 0x2D else 0x2B)%Z :: ds).
  { cbn [filter].
    replace (negb (in_set (chars ",") (if minus then 45 else 43)%Z))
      with true by (destruct minus; reflexivity).
    f_equal. apply filter_all.
    eapply Forall_weaken; [|exact H]. apply digit_not_comma. }
  rewrite F, (parseFloat_signed minus H).
  destruct ds; [destruct minus|]; reflexivity.
Qed.

(** What the signed field stores. *)
Lemma DiffField_shape (s : jsstring) :
  well_formed s = true ->
  let v := AppTsx.DiffField.onChange s in
  exists sign digits,
    v = sign ++ digits
    /\ (sign = [] \/ sign = js "-" \/ sign = js "+")
    /\ Forall (fun x => is_digit x = true) digits
    /\ (List.length digits <= 6)%nat.
Proof.
  intros Hw. cbv zeta. unfold AppTsx.DiffField.onChange.
  set (raw := replaceAll (Cls notDigitOrSign) (fun _ => []) s).
  assert (Hr : Forall (fun x => is_digit x || is_sign x = true) raw)
    by (apply strip_notDigitOrSign, Hw).
  eexists _, _. split; [reflexivity|]. split; [|split].
  - destruct (startsWith (js "-") raw); [auto|].
    destruct (startsWith (js "+") raw); auto.
  - apply Forall_firstn, strip_signs, Hr.
  - apply firstn_le_length.
Qed.

Lemma DiffField_fixpoint (sign digits : jsstring) :
  (sign = [] \/ sign = js "-" \/ sign = js "+") ->
  Forall (fun x => is_digit x = true) digits ->
  (List.length digits <= 6)%nat ->
  AppTsx.DiffField.onChange (sign ++ digits) = sign ++ digits.
Proof.
  intros Hs Hd Hl. unfold AppTsx.DiffField.onChange.
  assert (Ha : Forall (fun x => is_digit x || is_sign x = true)
                      (sign ++ digits)).
  { apply Forall_app. split.
    - destruct Hs as [ -> | [ -> | -> ] ]; repeat constructor.
    - eapply Forall_weaken; [|exact Hd].
      intros x Hx. cbv beta. now rewrite Hx. }
  assert (E1 : replaceAll (Cls notDigitOrSign) (fun _ => []) (sign ++ digits)
               = sign ++ digits).
  { rewrite replaceAll_delete. apply filter_all.
    eapply Forall_weaken; [|exact Ha]. apply digit_or_sign_passes. }
  rewrite E1.
  assert (E2 : replaceAll (Cls (chars "+-")) (fun _ => []) (sign ++ digits)
               = digits).
  { rewrite replaceAll_delete, filter_app.
    pose proof (strip_signs_id Hd) as E. rewrite replaceAll_delete in E.
    rewrite E. destruct Hs as [ -> | [ -> | -> ] ]; reflexivity. }
  rewrite E2. unfold slice0. rewrite (firstn_all2 digits) by exact Hl.
  f_equal. destruct Hs as [ -> | [ -> | -> ] ]; cbn [app].
  - change (js "-") with [0x2D%Z]. change (js "+") with [0x2B%Z].
    rewrite !startsWith_digit_no_sign; try assumption; reflexivity.
  - reflexivity.
  - reflexivity.
Qed.

End FieldFacts.

Section Fields.
Import FieldFacts.

(** X5.  Whatever well-formed text is typed into a BIG or REG field,
    [onChange] stores at most 4 decimal digits; storing is idempotent,
    and [numberOr] reads the stored text as an integer from 0 to 9999
    (the empty text as 0).  Both variants store the same text. *)
Theorem BRField_onChange_stores (targetValue : jsstring) :
  well_formed targetValue = true ->
  let v := AppTsx.BRField.onChange targetValue in
  Forall (fun x => is_digit x = true) v
  /\ (List.length v <= 4)%nat
  /\ AppTsx.BRField.onChange v = v
  /\ (exists z, (0 <= z <= 9999)%Z /\ AppTsx.numberOr (VStr v) zero = ofZ z)
  /\ Part000.BRField.onChange targetValue = v.
Proof.
  intros Hw.
  destruct (clipped_digits 4 targetValue Hw) as (H1 & H2 & H3 & z & Hz & E).
  cbv zeta. repeat split; try assumption.
  exists z. split; [|exact E].
  change (10 ^ Z.of_nat 4)%Z with 10000%Z in Hz. lia.
Qed.

Lemma BRField_onChange_stores_witness :
  let v := AppTsx.BRField.onChange (js "1a2,345 6") in
  Forall (fun x => is_digit x = true) v
  /\ (List.length v <= 4)%nat
  /\ AppTsx.BRField.onChange v = v
  /\ (exists z, (0 <= z <= 9999)%Z /\ AppTsx.numberOr (VStr v) zero = ofZ z)
  /\ Part000.BRField.onChange (js "1a2,345 6") = v.
Proof.
  apply (@BRField_onChange_stores (js "1a2,345 6")). vm_compute. reflexivity.
Defined.

(** X6.  Whatever well-formed text is typed into a [NumberField],
    [onChange] stores at most 5 decimal digits in [src/src/App.tsx] and
    at most 6 in [part_000]; storing is idempotent, and [numberOr] reads
    the stored text as a non-negative integer below 10^5, respectively
    10^6. *)
Theorem NumberField_onChange_stores (targetValue : jsstring) :
  well_formed targetValue = true ->
  let v := AppTsx.NumberField.onChange targetValue in
  let w := Part000.NumberField.onChange targetValue in
  (Forall (fun x => is_digit x = true) v
   /\ (List.length v <= 5)%nat
   /\ AppTsx.NumberField.onChange v = v
   /\ exists z, (0 <= z <= 99999)%Z /\ AppTsx.numberOr (VStr v) zero = ofZ z)
  /\ (Forall (fun x => is_digit x = true) w
      /\ (List.length w <= 6)%nat
      /\ Part000.NumberField.onChange w = w
      /\ exists z, (0 <= z <= 999999)%Z
                   /\ Part000.numberOr (VStr w) zero = ofZ z).
Proof.
  intros Hw. cbv zeta. split.
  - destruct (clipped_digits 5 targetValue Hw) as (H1 & H2 & H3 & z & Hz & E).
    repeat split; try assumption.
    exists z. split; [|exact E].
    change (10 ^ Z.of_nat 5)%Z with 100000%Z in Hz. lia.
  - destruct (clipped_digits 6 targetValue Hw) as (H1 & H2 & H3 & z & Hz & E).
    repeat split; try assumption.
    exists z. split; [|exact E].
    change (10 ^ Z.of_nat 6)%Z with 1000000%Z in Hz. lia.
Qed.

Lemma NumberField_onChange_stores_witness :
  let v := AppTsx.NumberField.onChange (js "12x3456789") in
  let w := Part000.NumberField.onChange (js "12x3456789") in
  (Forall (fun x => is_digit x = true) v
   /\ (List.length v <= 5)%nat
   /\ AppTsx.NumberField.onChange v = v
   /\ exists z, (0 <= z <= 99999)%Z /\ AppTsx.numberOr (VStr v) zero = ofZ z)
  /\ (Forall (fun x => is_digit x = true) w
      /\ (List.length w <= 6)%nat
      /\ Part000.NumberField.onChange w = w
      /\ exists z, (0 <= z <= 999999)%Z
                   /\ Part000.numberOr (VStr w) zero = ofZ z).
Proof.
  apply (@NumberField_onChange_stores (js "12x3456789")).
  vm_compute. reflexivity.
Defined.

(** X7.  Whatever well-formed text is typed into the difference
    field, [onChange] stores an optional leading sign followed by at
    most 6 decimal digits; storing is idempotent, and [numberOr] reads
    the stored text as the signed value of the digits, an integer
    between -999999 and 999999 (a sign alone, or nothing, as 0).  Both
    variants store the same text. *)
Theorem DiffField_onChange_stores (targetValue : jsstring) :
  well_formed targetValue = true ->
  let v := AppTsx.DiffField.onChange targetValue in
  exists sign digits,
    v = sign ++ digits
    /\ (sign = [] \/ sign = js "-" \/ sign = js "+")
    /\ Forall (fun x => is_digit x = true) digits
    /\ (List.length digits <= 6)%nat
    /\ AppTsx.DiffField.onChange v = v
    /\ AppTsx.numberOr (VStr v) zero
       = ofZ (if startsWith (js "-") sign
              then - digits_value digits else digits_value digits)
    /\ (0 <= digits_value digits <= 999999)%Z
    /\ Part000.DiffField.onChange targetValue = v.
Proof.
  intros Hw. cbv zeta.
  pose proof (DiffField_shape targetValue Hw) as H. cbv zeta in H.
  destruct H as (sign & digits & E & Hs & Hd & Hl). rewrite E.
  exists sign, digits. repeat split; try assumption.
  - now apply DiffField_fixpoint.
  - destruct Hs as [ -> | [ -> | -> ] ].
    + cbn [app]. now apply numberOr_digits_or_empty.
    + exact (numberOr_signed true Hd).
    + exact (numberOr_signed false Hd).
  - pose proof (DigitFacts.digits_value_bounds Hd). lia.
  - pose proof (DigitFacts.digits_value_bounds Hd).
    pose proof (pow10_mono Hl).
    change (10 ^ Z.of_nat 6)%Z with 1000000%Z in *. lia.
Qed.

Lemma DiffField_onChange_stores_witness :
  let v := AppTsx.DiffField.onChange (js "-1,2+3 4567x89") in
  exists sign digits,
    v = sign ++ digits
    /\ (sign = [] \/ sign = js "-" \/ sign = js "+")
    /\ Forall (fun x => is_digit x = true) digits
    /\ (List.length digits <= 6)%nat
    /\ AppTsx.DiffField.onChange v = v
    /\ AppTsx.numberOr (VStr v) zero
       = ofZ (if startsWith (js "-") sign
              then - digits_value digits else digits_value digits)
    /\ (0 <= digits_value digits <= 999999)%Z
    /\ Part000.DiffField.onChange (js "-1,2+3 4567x89") = v.
Proof.
  apply (@DiffField_onChange_stores (js "-1,2+3 4567x89")).
  vm_compute. reflexivity.
Defined.

End Fields.

(* ================================================================== *)
(** * The probability column and the history *)
(* ================================================================== *)

Section History.
Import EngineFacts OrderFacts.

Lemma qc_div_pos (a b : Qc) : (0 < a -> 0 < b -> 0 < a / b)%Qc.
Proof.
  intros Ha Hb. unfold Qcdiv.
  pose proof (Qcmult_lt_compat_r 0 a (/ b) (qc_inv_pos Hb) Ha) as H.
  now rewrite Qcmult_0_l in H.
Qed.

Lemma qc_div_nonpos (a b : Qc) : (a <= 0 -> 0 < b -> a / b <= 0)%Qc.
Proof.
  intros Ha Hb. unfold Qcdiv.
  pose proof (Qcmult_le_compat_r a 0 (/ b) Ha
                                 (Qclt_le_weak _ _ (qc_inv_pos Hb))) as H.
  now rewrite Qcmult_0_l in H.
Qed.



(** X9.  Adding to the history puts the new row first and keeps the
    nine most recent old rows behind it, so the list never exceeds
    [HISTORY_MAX]; what is handed to the storage is the list that is
    shown; the row carries the model key and, in the order of
    [STRATEGIES], the printed probability of each strategy, so that the
    fallback of the lookup is never taken. *)
Theorem handleAddHistory_rows
        (toFixed : number -> nat -> jsstring)
        (st : State.t) (history : list HistoryRow.t) :
  exists row,
    fst (Part000.handleAddHistory toFixed st history)
    = row :: firstn 9 history
    /\ snd (Part000.handleAddHistory toFixed st history)
       = fst (Part000.handleAddHistory toFixed st history)
    /\ List.length (fst (Part000.handleAddHistory toFixed st history))
       = Nat.min Part000.HISTORY_MAX (S (List.length history))
    /\ HistoryRow.modelKey row = State.modelKey st
    /\ [HistoryRow.probRandom row; HistoryRow.probC90 row;
        HistoryRow.probC100 row; HistoryRow.probFull row]
       = map (fun s => Part000.formatProb toFixed
                         (Result.grapeProb
                            (Part000.calcResultByCapture
                               st (Strategy.capture s))))
             Part000.STRATEGIES.
Proof.
  unfold Part000.handleAddHistory, Part000.resultsByStrategy,
    Part000.saveHistory.
  generalize (Part000.calcResultByCapture st). intros f.
  generalize (Part000.formatProb toFixed). intros fmt.
  eexists. split; [|split; [|split; [|split]]].
  - cbn [fst]. unfold Part000.HISTORY_MAX. cbn [firstn]. reflexivity.
  - cbn [fst snd]. rewrite firstn_firstn. reflexivity.
  - cbn [fst]. rewrite length_firstn. reflexivity.
  - reflexivity.
  - reflexivity.
Qed.

End History.

(* ================================================================== *)
(** * What the patterns can extract *)
(* ================================================================== *)

Module MatchFacts.
Import RegexFacts DigitFacts FieldFacts.

Lemma iter_suffix
      (step : jsstring -> captures -> jsstring -> captures -> Prop) :
  (forall s c s' c', step s c s' c' -> exists run, s = run ++ s') ->
  forall n s c s' c', iter step n s c s' c' -> exists run, s = run ++ s'.
Proof.
  intros Hs. induction n as [|n IH]; intros s c s' c' H; cbn [iter] in H.
  - destruct H as [-> _]. now exists [].
  - destruct H as (s1 & c1 & H1 & H2). apply Hs in H1. apply IH in H2.
    destruct H1 as [r1 ->]. destruct H2 as [r2 ->].
    exists (r1 ++ r2). now rewrite <- app_assoc.
Qed.

(** A match leaves a suffix of its input. *)
Lemma matches_suffix (r : regex) :
  forall s c s' c', matches r s c s' c' -> exists run, s = run ++ s'.
Proof.
  induction r as [|cs|r1 IH1 r2 IH2|r1 IH1 r2 IH2|r IH lo hi|n r IH|r IH];
    intros s c s' c' H; cbn [matches] in H.
  - destruct H as [-> _]. now exists [].
  - destruct H as (x & -> & _). now exists [x].
  - destruct H as (s1 & c1 & H1 & H2). apply IH1 in H1. apply IH2 in H2.
    destruct H1 as [a ->]. destruct H2 as [b ->].
    exists (a ++ b). now rewrite <- app_assoc.
  - destruct H as [H|H]; eauto.
  - destruct H as (n & _ & _ & H). revert H. apply iter_suffix. exact IH.
  - destruct H as (c1 & H & _). eauto.
  - destruct H as (-> & _). now exists [].
Qed.

(** A quantified class consumes a run of the class and captures
    nothing. *)
Lemma rep_cls (cs : charset) (lo : nat) (hi : option nat) s c s' c' :
  matches (Rep (Cls cs) lo hi) s c s' c' ->
  exists run, s = run ++ s' /\ (lo <= List.length run)%nat
              /\ within (List.length run) hi
              /\ Forall (fun x => in_set cs x = true) run /\ c' = c.
Proof.
  intros (n & Hlo & Hhi & H). apply iter_cls in H.
  destruct H as (run & -> & <- & Hf & ->). exists run. auto.
Qed.

(** The label, the optional colon and the white space around it. *)
Lemma label_prefix (L R : regex) s c s' m :
  matches (Seq (Grp 1 L)
               (Seq (Star (Cls space))
                    (Seq (Opt (Cls (chars ":：")))
                         (Seq (Star (Cls space)) R)))) s c s' m ->
  exists a s4 c4, s = a ++ s4 /\ matches R s4 c4 s' m.
Proof.
  intros (s1 & c1 & (c0 & HL & _) & H).
  destruct H as (s2 & c2 & H2 & H). destruct H as (s3 & c3 & H3 & H).
  destruct H as (s4 & c4 & H4 & H).
  apply matches_suffix in HL. destruct HL as [r1 ->].
  apply rep_cls in H2. destruct H2 as (r2 & -> & _).
  apply rep_cls in H3. destruct H3 as (r3 & -> & _).
  apply rep_cls in H4. destruct H4 as (r4 & -> & _).
  exists (r1 ++ r2 ++ r3 ++ r4), s4, c4. split; [|exact H].
  now rewrite <- !app_assoc.
Qed.

Lemma digits_group (n lo hi : nat) s c s' m :
  matches (Grp n (Rep (Cls digit) lo (Some hi))) s c s' m ->
  exists ds, s = ds ++ s' /\ Forall (fun x => is_digit x = true) ds
             /\ (lo <= List.length ds <= hi)%nat /\ m = (n, ds) :: c.
Proof.
  intros (c1 & H & ->). apply rep_cls in H.
  destruct H as (ds & -> & Hlo & Hhi & Hd & ->).
  exists ds. rewrite consumed_app. cbn [within] in Hhi. auto.
Qed.

Lemma optional_sign s c s' c' :
  matches (Opt (Cls (chars "+-"))) s c s' c' ->
  exists sg, s = sg ++ s' /\ c' = c
             /\ (sg = [] \/ exists x, is_sign x = true /\ sg = [x]).
Proof.
  intros H. apply rep_cls in H. destruct H as (sg & -> & _ & Hhi & Hf & ->).
  exists sg. repeat split. cbn [within] in Hhi.
  destruct sg as [|x [|y sg]]; [now left | right | cbn in Hhi; lia].
  exists x. inversion Hf; subst. auto.
Qed.

Lemma signed_group (n lo hi : nat) s c s' m :
  matches (Grp n (Seq (Opt (Cls (chars "+-")))
                      (Rep (Cls digit) lo (Some hi)))) s c s' m ->
  exists sg ds,
    s = sg ++ ds ++ s' /\ Forall (fun x => is_digit x = true) ds
    /\ (lo <= List.length ds <= hi)%nat
    /\ (sg = [] \/ exists x, is_sign x = true /\ sg = [x])
    /\ m = (n, sg ++ ds) :: c.
Proof.
  intros (c1 & (s1 & c2 & Hs & H) & ->).
  apply optional_sign in Hs. destruct Hs as (sg & -> & -> & Hsg).
  apply rep_cls in H. destruct H as (ds & -> & Hlo & Hhi & Hd & ->).
  exists sg, ds. rewrite app_assoc, consumed_app. cbn [within] in Hhi.
  rewrite <- app_assoc. auto 10.
Qed.

Lemma sign_then_digits (n lo hi : nat) s c s' m :
  matches (Grp n (Seq (Cls (chars "+-"))
                      (Rep (Cls digit) lo (Some hi)))) s c s' m ->
  exists x ds,
    s = [x] ++ ds ++ s' /\ Forall (fun x => is_digit x = true) ds
    /\ (lo <= List.length ds <= hi)%nat
    /\ is_sign x = true
    /\ m = (n, [x] ++ ds) :: c.
Proof.
  intros (c1 & (s1 & c2 & (x & -> & Hx & ->) & H) & ->).
  apply rep_cls in H. destruct H as (ds & -> & Hlo & Hhi & Hd & ->).
  exists x, ds. change (x :: ds ++ s') with (([x] ++ ds) ++ s').
  rewrite consumed_app. cbn [within] in Hhi. auto 10.
Qed.

(** ** The six patterns *)

Lemma labelled_count (L : regex) (lo hi : nat) text m :
  exec (Seqs [ Grp 1 L; Star (Cls space); Opt (Cls (chars ":："));
               Star (Cls space); Grp 2 (Rep (Cls digit) lo (Some hi)) ])
       text = Some m ->
  numeral lo hi false text (group 2 m).
Proof.
  intros H. apply exec_sound in H. destruct H as (pre & s0 & s' & -> & H).
  cbn [Seqs] in H. apply label_prefix in H.
  destruct H as (a & s4 & c4 & -> & H). apply digits_group in H.
  destruct H as (ds & -> & Hd & Hl & ->).
  exists (pre ++ a), [], ds, s'. cbn [app group Nat.eqb].
  rewrite <- app_assoc.
  repeat split; try assumption; try lia. now left.
Qed.

Lemma labelled_spins (L : regex) text m :
  exec (Seqs [ Grp 1 L; Star (Cls space); Opt (Cls (chars ":："));
               Star (Cls space); Grp 2 (Rep (Cls digit) 2 (Some 6%nat));
               Star (Cls space); Opt (Chr "g") ])
       text = Some m ->
  numeral 2 6 false text (or_else (group 2 m) (group 1 m)).
Proof.
  intros H. apply exec_sound in H. destruct H as (pre & s0 & s' & -> & H).
  cbn [Seqs] in H. apply label_prefix in H.
  destruct H as (a & s4 & c4 & -> & H).
  destruct H as (s5 & c5 & H & H').
  destruct H' as (s6 & c6 & H6 & H7).
  apply digits_group in H. destruct H as (ds & -> & Hd & Hl & ->).
  apply rep_cls in H6. destruct H6 as (r6 & -> & _ & _ & _ & ->).
  apply rep_cls in H7. destruct H7 as (r7 & -> & _ & _ & _ & ->).
  exists (pre ++ a), [], ds, (r6 ++ r7 ++ s'). cbn [app group Nat.eqb].
  rewrite <- app_assoc.
  destruct ds as [|d ds]; [cbn in Hl; lia|]. cbn [or_else].
  repeat split; try assumption; try lia. now left.
Qed.

Lemma fallback_spins text m :
  exec gFallback text = Some m ->
  numeral 2 6 false text (or_else (group 2 m) (group 1 m)).
Proof.
  intros H. apply fallback_shape in H.
  destruct H as (pre & ds & ws & post & -> & Hl & Hd & _ & _ & ->).
  exists pre, [], ds, (ws ++ ch "g" :: post). cbn [app group Nat.eqb or_else].
  repeat split; try assumption; try lia. now left.
Qed.

Lemma labelled_diff (L : regex) text m :
  exec (Seqs [ Grp 1 L; Star (Cls space); Opt (Cls (chars ":："));
               Star (Cls space);
               Grp 3 (Seq (Opt (Cls (chars "+-")))
                          (Rep (Cls digit) 1 (Some 6%nat))) ])
       text = Some m ->
  numeral 1 6 true text (or_else (group 3 m) (group 1 m)).
Proof.
  intros H. apply exec_sound in H. destruct H as (pre & s0 & s' & -> & H).
  cbn [Seqs] in H. apply label_prefix in H.
  destruct H as (a & s4 & c4 & -> & H). apply signed_group in H.
  destruct H as (sg & ds & -> & Hd & Hl & Hsg & ->).
  exists (pre ++ a), sg, ds, s'.
  rewrite <- app_assoc.
  assert (E : or_else (group 3 ((3%nat, sg ++ ds) :: c4))
                      (group 1 ((3%nat, sg ++ ds) :: c4))
              = Some (sg ++ ds)).
  { destruct sg as [|x sg]; [|reflexivity].
    destruct ds as [|d ds]; [cbn in Hl; lia | reflexivity]. }
  rewrite E. repeat split; try assumption; try lia.
  destruct Hsg as [->|Hx]; [now left | right; auto].
Qed.

Lemma bare_diff text m :
  exec (Seqs [ Grp 1 (Seq (Cls (chars "+-"))
                          (Rep (Cls digit) 1 (Some 6%nat)));
               Star (Cls space); Opt (Grp 2 (Chr "枚")) ])
       text = Some m ->
  numeral 1 6 true text (or_else (group 3 m) (group 1 m)).
Proof.
  intros H. apply exec_sound in H. destruct H as (pre & s0 & s' & -> & H).
  cbn [Seqs] in H. destruct H as (s1 & c1 & H1 & s2 & c2 & H2 & H3).
  apply sign_then_digits in H1.
  destruct H1 as (x & ds & -> & Hd & Hl & Hx & ->).
  apply rep_cls in H2. destruct H2 as (ws & -> & _ & _ & _ & ->).
  apply matches_suffix in H3 as Hs. destruct Hs as [r3 ->].
  assert (E : or_else (group 3 m) (group 1 m) = Some ([x] ++ ds)).
  { destruct H3 as (k & _ & Hk & H3). cbn [within] in Hk.
    destruct k as [|[|k]]; [| |lia]; cbn [iter] in H3.
    - destruct H3 as [_ ->]. reflexivity.
    - destruct H3 as (s5 & c5 & (c6 & (y & _ & _ & ->) & ->) & _ & ->).
      reflexivity. }
  rewrite E. exists pre, [x], ds, (ws ++ r3 ++ s').
  rewrite <- ?app_assoc. repeat split; try assumption; try lia.
  right. split; [reflexivity|]. now exists x.
Qed.

Lemma numeral_weaken (lo lo' hi : nat) (signs : bool) text g :
  (lo' <= lo)%nat -> numeral lo hi signs text g -> numeral lo' hi signs text g.
Proof.
  intros Hlo (a & sg & ds & b & Ht & Hd & Hl & Hs & Hg).
  exists a, sg, ds, b. repeat split; try assumption; lia.
Qed.

(** ** The four field loops *)

Lemma extractG_numeral (text : jsstring) (n : number) :
  AppTsx.extractG text = Some n ->
  exists g, numeral 2 6 false text g /\ n = parseIntGroup g.
Proof.
  unfold AppTsx.extractG, AppTsx.gPatterns. cbn [firstMatch].
  match goal with
  | |- context [exec ?r text] => destruct (exec r text) as [m|] eqn:E
  end.
  - intros [= <-]. eexists. split; [|reflexivity].
    now apply labelled_spins in E.
  - match goal with
    | |- context [exec ?r text] =>
        change (exec r text) with (exec gFallback text);
        destruct (exec gFallback text) as [m|] eqn:F
    end; [|discriminate].
    intros [= <-]. eexists. split; [|reflexivity].
    now apply fallback_spins.
Qed.

Lemma extractBig_numeral (text : jsstring) (n : number) :
  AppTsx.extractBig text = Some n ->
  exists g, numeral 1 3 false text g /\ n = parseIntGroup g.
Proof.
  unfold AppTsx.extractBig, AppTsx.bbPatterns. cbn [firstMatch].
  match goal with
  | |- context [exec ?r text] => destruct (exec r text) as [m|] eqn:E
  end; [|discriminate].
  intros [= <-]. eexists. split; [|reflexivity].
  now apply labelled_count in E.
Qed.

Lemma extractReg_numeral (text : jsstring) (n : number) :
  AppTsx.extractReg text = Some n ->
  exists g, numeral 1 3 false text g /\ n = parseIntGroup g.
Proof.
  unfold AppTsx.extractReg, AppTsx.rbPatterns. cbn [firstMatch].
  match goal with
  | |- context [exec ?r text] => destruct (exec r text) as [m|] eqn:E
  end; [|discriminate].
  intros [= <-]. eexists. split; [|reflexivity].
  now apply labelled_count in E.
Qed.

Lemma extractDiff_numeral (text : jsstring) (n : number) :
  AppTsx.extractDiff text = Some n ->
  exists g, numeral 1 6 true text g /\ n = parseIntGroup g.
Proof.
  unfold AppTsx.extractDiff, AppTsx.diffPatterns. cbn [firstMatch].
  match goal with
  | |- context [exec ?r text] => destruct (exec r text) as [m|] eqn:E
  end.
  - intros [= <-]. eexists. split; [|reflexivity].
    now apply labelled_diff in E.
  - match goal with
    | |- context [exec ?r text] => destruct (exec r text) as [m|] eqn:F
    end; [|discriminate].
    intros [= <-]. eexists. split; [|reflexivity].
    now apply bare_diff in F.
Qed.

(** ** The value of a numeral *)

Lemma sign_not_space (x : Z) : is_sign x = true -> is_space x = false.
Proof. intros H. apply is_sign_cases in H. destruct H; subst; reflexivity. Qed.

Lemma parseInt_signed (x : Z) (ds : jsstring) :
  is_sign x = true -> ds <> [] -> Forall (fun x => is_digit x = true) ds ->
  parseInt (x :: ds)
  = ofZ (if (x =? 0x2D)%Z then - digits_value ds else digits_value ds).
Proof.
  intros Hx Hn Hd. unfold parseInt. cbn [dropWhile].
  rewrite (sign_not_space x Hx). apply is_sign_cases in Hx.
  destruct Hx as [->| ->]; cbn [split_sign Z.eqb Pos.eqb];
    rewrite (@takeWhile_all is_digit _ Hd);
    destruct ds; [congruence | reflexivity | congruence | reflexivity].
Qed.

Lemma numeral_value (lo hi : nat) (signs : bool) text g :
  (1 <= lo)%nat -> numeral lo hi signs text g ->
  (exists z, parseIntGroup g = ofZ z
             /\ (- 10 ^ Z.of_nat hi < z < 10 ^ Z.of_nat hi)%Z
             /\ (signs = false -> 0 <= z)%Z)
  /\ exists x, In x text /\ is_digit x = true.
Proof.
  intros Hlo (a & sg & ds & b & -> & Hd & Hl & Hs & ->).
  assert (Hn : ds <> []) by (destruct ds; [cbn in Hl; lia | discriminate]).
  pose proof (digits_value_bounds Hd) as Hb.
  assert (Hp : (10 ^ Z.of_nat (List.length ds) <= 10 ^ Z.of_nat hi)%Z)
    by (apply pow10_mono; lia).
  split.
  - cbn [parseIntGroup]. destruct Hs as [->|(Hsg & x & Hx & ->)].
    + cbn [app]. rewrite (@parseInt_digits ds Hn Hd).
      exists (digits_value ds). repeat split; lia.
    + cbn [app]. rewrite (@parseInt_signed x ds Hx Hn Hd).
      eexists. split; [reflexivity|]. split; [|congruence].
      destruct (x =? 45)%Z; lia.
  - destruct ds as [|d ds]; [congruence|]. exists d.
    inversion Hd; subst. split; [|assumption].
    rewrite !in_app_iff. right. right. left. now left.
Qed.

(** ** Digits through the normalisation *)

Lemma fold_unit_digit (x : Z) :
  is_digit (Normal.fold_unit x) = is_digit x.
Proof.
  unfold is_digit, digit. cbn [in_set]. NormalFacts.unit_cases.
Qed.

Lemma halfwidth_digit (x : Z) :
  is_digit (Normal.halfwidth x) = true ->
  is_digit x = true \/ in_set Normal.fullwidthDigit x = true.
Proof.
  unfold Normal.halfwidth.
  destruct (in_set Normal.fullwidthDigit x); auto.
Qed.

Lemma squeeze_in (cs : charset) (y : Z) (s : jsstring) :
  forall b x, In x (Normal.squeeze cs [y] b s) -> x = y \/ In x s.
Proof.
  induction s as [|z s IH]; intros b x H; [destruct H|].
  cbn [Normal.squeeze] in H. destruct (in_set cs z).
  - apply in_app_iff in H. destruct H as [H|H].
    + destruct b; [destruct H|]. destruct H as [<-|[]]. now left.
    + apply IH in H. destruct H; [now left | right; now right].
  - destruct H as [<-|H]; [right; now left|].
    apply IH in H. destruct H; [now left | right; now right].
Qed.

Lemma normalize_digit (raw : jsstring) (y : Z) :
  In y (AppTsx.normalize raw) -> is_digit y = true ->
  exists x, In x raw
            /\ (is_digit x = true \/ in_set Normal.fullwidthDigit x = true).
Proof.
  rewrite NormalFacts.normalize_steps. intros H Hy.
  apply in_map_iff in H. destruct H as (u & <- & H).
  rewrite fold_unit_digit in Hy.
  apply filter_In in H. destruct H as [H _].
  apply squeeze_in in H. destruct H as [->|H]; [discriminate|].
  apply in_map_iff in H. destruct H as (x & <- & H).
  exists x. split; [assumption|]. now apply halfwidth_digit.
Qed.

Lemma dropWhile_in (p : Z -> bool) (s : jsstring) (x : Z) :
  In x (dropWhile p s) -> In x s.
Proof.
  induction s as [|y s IH]; [auto|]. cbn [dropWhile].
  destruct (p y); [right; auto | auto].
Qed.

Lemma trim_in (s : jsstring) (x : Z) : In x (AppTsx.trim s) -> In x s.
Proof.
  unfold AppTsx.trim. intros H. apply in_rev, dropWhile_in in H.
  apply in_rev in H. apply (dropWhile_in _ _ _ H).
Qed.

End MatchFacts.

Section Ranges.
Import AppTsx MatchFacts.

(** X10.  Whatever text the recognition returns, the numbers that
    [parseFromText] extracts are integers within the ranges of their
    patterns: the spin count between 0 and 999999, the two jackpot
    counts between 0 and 999, the difference between -999999 and
    999999.  No extracted field is NaN or infinite. *)
Theorem parsed_fields_in_range (raw : jsstring) (p : Parsed.t) :
  parseFromText raw = Some p ->
  (forall n, Parsed.G p = Some n ->
             exists z, n = ofZ z /\ (0 <= z <= 999999)%Z)
  /\ (forall n, Parsed.big p = Some n ->
                exists z, n = ofZ z /\ (0 <= z <= 999)%Z)
  /\ (forall n, Parsed.reg p = Some n ->
                exists z, n = ofZ z /\ (0 <= z <= 999)%Z)
  /\ (forall n, Parsed.diff p = Some n ->
                exists z, n = ofZ z /\ (-999999 <= z <= 999999)%Z).
Proof.
  intros Hp. apply parseFromText_some in Hp. subst p.
  cbn [Parsed.G Parsed.big Parsed.reg Parsed.diff].
  repeat split; intros n Hn.
  - apply extractG_numeral in Hn. destruct Hn as (g & Hg & ->).
    apply numeral_value in Hg; [|lia].
    destruct Hg as [(z & -> & Hz & Hs) _]. exists z. split; [reflexivity|].
    specialize (Hs eq_refl). change (10 ^ Z.of_nat 6)%Z with 1000000%Z in Hz.
    lia.
  - apply extractBig_numeral in Hn. destruct Hn as (g & Hg & ->).
    apply numeral_value in Hg; [|lia].
    destruct Hg as [(z & -> & Hz & Hs) _]. exists z. split; [reflexivity|].
    specialize (Hs eq_refl). change (10 ^ Z.of_nat 3)%Z with 1000%Z in Hz.
    lia.
  - apply extractReg_numeral in Hn. destruct Hn as (g & Hg & ->).
    apply numeral_value in Hg; [|lia].
    destruct Hg as [(z & -> & Hz & Hs) _]. exists z. split; [reflexivity|].
    specialize (Hs eq_refl). change (10 ^ Z.of_nat 3)%Z with 1000%Z in Hz.
    lia.
  - apply extractDiff_numeral in Hn. destruct Hn as (g & Hg & ->).
    apply numeral_value in Hg; [|lia].
    destruct Hg as [(z & -> & Hz & _) _]. exists z. split; [reflexivity|].
    change (10 ^ Z.of_nat 6)%Z with 1000000%Z in Hz. lia.
Qed.

Lemma parsed_fields_in_range_witness :
  (forall n, Some (ofZ 3200) = Some n ->
             exists z, n = ofZ z /\ (0 <= z <= 999999)%Z)
  /\ (forall n, @None number = Some n ->
                exists z, n = ofZ z /\ (0 <= z <= 999)%Z)
  /\ (forall n, @None number = Some n ->
                exists z, n = ofZ z /\ (0 <= z <= 999)%Z)
  /\ (forall n, Some (ofZ (-1250)) = Some n ->
                exists z, n = ofZ z /\ (-999999 <= z <= 999999)%Z).
Proof.
  apply (@parsed_fields_in_range
           (js "総回転数：３２００Ｇ 差枚 －1250枚")
           (Parsed.mk None (Some (ofZ 3200)) None None (Some (ofZ (-1250))))).
  vm_compute. reflexivity.
Defined.



End Ranges.

(* ================================================================== *)
(** * The normalisation as one pass, and the merge twice *)
(* ================================================================== *)

Section OnePass.
Import Normal NormalFacts.

Lemma squeeze_length (s : jsstring) :
  forall b, (List.length (squeeze blank [0x20%Z] b s) <= List.length s)%nat.
Proof.
  induction s as [|x s IH]; intros b; [apply le_n|].
  cbn [squeeze]. destruct (in_set blank x).
  - rewrite length_app. specialize (IH true).
    destruct b; cbn [List.length]; lia.
  - cbn [List.length]. specialize (IH false). lia.
Qed.


End OnePass.

Section Twice.

Lemma applyParsed_twice_AppTsx (p : option Parsed.t) (st : State.t) :
  AppTsx.applyParsed p (AppTsx.applyParsed p st) = AppTsx.applyParsed p st.
Proof.
  destruct p as [[mk G B R D]|]; [|reflexivity].
  destruct st as [k0 G0 B0 R0 D0 rp ch be pi ba ra cp bp pp].
  unfold AppTsx.applyParsed, AppTsx.loadPreset. cbn [Parsed.modelKey].
  destruct mk as [[|c key]|];
    try (destruct (lookup (c :: key) AppTsx.PRESETS) as [np|]);
    destruct G, B, R, D; reflexivity.
Qed.

Lemma applyParsed_twice_Part000 (p : option Parsed.t) (st : State.t) :
  Part000.applyParsed p (Part000.applyParsed p st)
  = Part000.applyParsed p st.
Proof.
  destruct p as [[mk G B R D]|]; [|reflexivity].
  destruct st as [k0 G0 B0 R0 D0 rp ch be pi ba ra cp bp pp].
  unfold Part000.applyParsed, Part000.loadPreset. cbn [Parsed.modelKey].
  destruct mk as [[|c key]|];
    try (destruct (lookup (c :: key) Part000.PRESETS) as [np|]);
    destruct G, B, R, D; reflexivity.
Qed.

(** X13.  Reading the same recognised text a second time changes
    nothing more: in both variants [handleImageFiles] is idempotent on
    the state cells. *)
Theorem handleImageFiles_twice (dataText : jsstring) (st : State.t) :
  AppTsx.handleImageFiles dataText (AppTsx.handleImageFiles dataText st)
  = AppTsx.handleImageFiles dataText st
  /\ Part000.handleImageFiles dataText
       (Part000.handleImageFiles dataText st)
     = Part000.handleImageFiles dataText st.
Proof.
  split.
  - unfold AppTsx.handleImageFiles. apply applyParsed_twice_AppTsx.
  - unfold Part000.handleImageFiles. apply applyParsed_twice_Part000.
Qed.

End Twice.

(* ================================================================== *)
(** * A recognised model name *)
(* ================================================================== *)

Section Model.

Lemma merged_premises_Part000
      (p : Parsed.t) (st : State.t) (c : Z) (k : jsstring) (np : Preset.t) :
  Parsed.modelKey p = Some (c :: k) ->
  lookup (c :: k) Part000.PRESETS = Some np ->
  State.modelKey (Part000.applyParsed (Some p) st) = c :: k
  /\ premisesOf (Part000.applyParsed (Some p) st) = np
  /\ exists G B R D,
       Part000.applyParsed (Some p) st = session (c :: k) np G B R D.
Proof.
  intros Hk E. unfold Part000.applyParsed, Part000.loadPreset.
  rewrite Hk, E.
  destruct p as [mk G B R D], np as [a1 a2 a3 a4 a5 a6 a7 a8 a9],
    st as [k0 G0 B0 R0 D0 rp ch be pi ba ra cp bp pp].
  cbn [Parsed.G Parsed.big Parsed.reg Parsed.diff].
  destruct G, B, R, D; (split; [reflexivity|]); (split; [reflexivity|]);
    eexists _, _, _, _; reflexivity.
Qed.

Lemma merged_premises_AppTsx
      (p : Parsed.t) (st : State.t) (c : Z) (k : jsstring) (np : Preset.t) :
  Parsed.modelKey p = Some (c :: k) ->
  lookup (c :: k) AppTsx.PRESETS = Some np ->
  State.modelKey (AppTsx.applyParsed (Some p) st) = c :: k
  /\ premisesOf (AppTsx.applyParsed (Some p) st) = np
  /\ exists G B R D,
       AppTsx.applyParsed (Some p) st = session (c :: k) np G B R D.
Proof.
  intros Hk E. unfold AppTsx.applyParsed, AppTsx.loadPreset.
  rewrite Hk, E.
  destruct p as [mk G B R D], np as [a1 a2 a3 a4 a5 a6 a7 a8 a9],
    st as [k0 G0 B0 R0 D0 rp ch be pi ba ra cp bp pp].
  cbn [Parsed.G Parsed.big Parsed.reg Parsed.diff].
  destruct G, B, R, D; (split; [reflexivity|]); (split; [reflexivity|]);
    eexists _, _, _, _; reflexivity.
Qed.

(** X14.  A model name in the extraction result is always a key of
    [PRESETS], so the guard of [handleImageFiles] never rejects it: in
    both variants the merge sets the model key to that name and the
    nine premises to the values of its preset, which are usable
    premises. *)
Theorem recognised_model_loads_preset
        (raw : jsstring) (p : Parsed.t) (key : jsstring) (st : State.t) :
  Part000.parseFromText raw = Some p ->
  Parsed.modelKey p = Some key ->
  exists np,
    In (key, np) Part000.PRESETS
    /\ forall st',
        st' = Part000.applyParsed (Some p) st
        \/ st' = AppTsx.applyParsed (Some p) st ->
        State.modelKey st' = key /\ premisesOf st' = np
        /\ premises_ok st' = true.
Proof.
  intros Hp Hk.
  assert (Hn : namesPreset Part000.PRESETS p = true)
    by (apply (parsed_model_names_preset raw Hp); congruence).
  unfold namesPreset in Hn. rewrite Hk in Hn.
  destruct key as [|c k]; [discriminate|].
  destruct (lookup (c :: k) Part000.PRESETS) as [np|] eqn:E; [|discriminate].
  clear Hn Hp. exists np.
  assert (Hin : In (c :: k, np) AppTsx.PRESETS) by now apply lookup_preset.
  split; [now apply lookup_in|].
  intros st' [->| ->].
  - destruct (merged_premises_Part000 p st Hk E)
      as (E1 & E2 & G & B & R & D & E3).
    repeat split; try assumption. rewrite E3. now apply presets_usable.
  - rewrite <- presets_agree in E.
    destruct (merged_premises_AppTsx p st Hk E)
      as (E1 & E2 & G & B & R & D & E3).
    repeat split; try assumption. rewrite E3. now apply presets_usable.
Qed.

Lemma recognised_model_loads_preset_witness :
  exists np,
    In (js "マイジャグラーV", np) Part000.PRESETS
    /\ forall st',
        st' = Part000.applyParsed
                (Some (Parsed.mk (Some (js "マイジャグラーV"))
                                 (Some (ofZ 3200)) None None None))
                Examples.noSpins
        \/ st' = AppTsx.applyParsed
                   (Some (Parsed.mk (Some (js "マイジャグラーV"))
                                    (Some (ofZ 3200)) None None None))
                   Examples.noSpins ->
        State.modelKey st' = js "マイジャグラーV" /\ premisesOf st' = np
        /\ premises_ok st' = true.
Proof.
  apply (@recognised_model_loads_preset
           (js "マイジャグラーV 3200G")
           (Parsed.mk (Some (js "マイジャグラーV"))
                      (Some (ofZ 3200)) None None None)
           (js "マイジャグラーV") Examples.noSpins).
  - vm_compute. reflexivity.
  - reflexivity.
Defined.

End Model.
